(** * Record validator (main.py): a shallow embedding and its properties

    The program reads a batch of user records, checks nine fields of
    every record with [Validator.check_*], splits the batch into invalid
    and valid records ([Validator.parse]) and prints a tally of the
    failure reasons ([show_summary]).

    Python values are modelled as follows.
    - [str] is a sequence of Unicode code points: [list Z].
    - [re.match] is an interpreter over the parsed form of a pattern, the
      one [sre_parse.parse] produces; it returns every state the pattern
      can reach, so that a match exists iff the backtracking matcher of
      CPython finds one.
    - [dict] read from JSON is a [gmap] from keys to string values; the
      [errors_count] dict of [show_summary], whose iteration order is
      printed, is an association list in insertion order.
    - exceptions are the [Raise] case of a small error monad. *)

From Stdlib Require Import ZArith List Bool Lia String Ascii QArith Qpower Qround Lqa.
From Stdlib Require Import DecimalNat.
From stdpp Require Import gmap.
Import ListNotations.

Local Open Scope Z_scope.

(** ** Strings *)

Abbreviation pystr := (list Z).

Definition ord (a : ascii) : Z := Z.of_N (N_of_ascii a).
Arguments ord a%_char.

(** String literals of the source are written as UTF-8 text and decoded
    to code points. *)
Fixpoint u (s : string) : pystr :=
  match s with
  | EmptyString => []
  | String a0 s1 =>
    let b0 := ord a0 in
    if b0 <? 128 then b0 :: u s1
    else
      match s1 with
      | EmptyString => [b0]
      | String a1 s2 =>
        let b1 := ord a1 - 128 in
        if b0 <? 224 then ((b0 - 192) * 64 + b1) :: u s2
        else
          match s2 with
          | EmptyString => [b0]
          | String a2 s3 =>
            let b2 := ord a2 - 128 in
            if b0 <? 240 then ((b0 - 224) * 4096 + b1 * 64 + b2) :: u s3
            else
              match s3 with
              | EmptyString => [b0]
              | String a3 s4 =>
                ((b0 - 240) * 262144 + b1 * 4096 + b2 * 64 + (ord a3 - 128))
                  :: u s4
              end
          end
      end
  end.
Arguments u s%_string.

Definition NEWLINE : Z := 10.

(** ** Character tables of the interpreter

    [str.isspace], the class [\s] of [re] on [str] patterns. *)
Definition Py_UNICODE_ISSPACE (c : Z) : bool :=
  ((9 <=? c) && (c <=? 13)) || ((28 <=? c) && (c <=? 32))
  || (c =? 133) || (c =? 160) || (c =? 5760)
  || ((8192 <=? c) && (c <=? 8202)) || (c =? 8232) || (c =? 8233)
  || (c =? 8239) || (c =? 8287) || (c =? 12288).

(** First code point of every run [0..9] of decimal digits (general
    category Nd, Unicode 14). *)
Definition unicode_decimal_blocks : list Z :=
  [48; 1632; 1776; 1984; 2406; 2534; 2662; 2790; 2918; 3046; 3174; 3302;
   3430; 3558; 3664; 3792; 3872; 4160; 4240; 6112; 6160; 6470; 6608; 6784;
   6800; 6992; 7088; 7232; 7248; 42528; 43216; 43264; 43472; 43504; 43600;
   44016; 65296; 66720; 68912; 69734; 69872; 69942; 70096; 70384; 70736;
   70864; 71248; 71360; 71472; 71904; 72016; 72784; 73040; 73120; 92768;
   92864; 93008; 120782; 120792; 120802; 120812; 120822; 123200; 123632;
   125264; 130032].

Definition Py_UNICODE_TODECIMAL (c : Z) : option Z :=
  match find (fun b => (b <=? c) && (c <=? b + 9)) unicode_decimal_blocks with
  | Some b => Some (c - b)
  | None => None
  end.

(** [str.isdecimal], the class [\d] of [re] on [str] patterns. *)
Definition Py_UNICODE_ISDECIMAL (c : Z) : bool :=
  match Py_UNICODE_TODECIMAL c with Some _ => true | None => false end.

(** ** The regular expression matcher *)

Module sre.

Inductive category := CATEGORY_DIGIT | CATEGORY_SPACE.

Inductive set_item :=
| IN_LITERAL (c : Z)
| RANGE (lo hi : Z)
| CATEGORY (k : category).

Inductive at_code := AT_BEGINNING | AT_END.

(** Parsed patterns; [MAX_REPEAT lo None] stands for [MAX_REPEAT lo
    MAXREPEAT]. *)
Inductive op :=
| AT (a : at_code)
| LITERAL (c : Z)
| IN (items : list set_item)
| MAX_REPEAT (lo : nat) (hi : option nat) (body : list op)
| SUBPATTERN (group : nat) (body : list op).

(** A matcher state: the index reached and the text still to read. *)
Definition state : Type := nat * pystr.

Definition category_match (k : category) (c : Z) : bool :=
  match k with
  | CATEGORY_DIGIT => Py_UNICODE_ISDECIMAL c
  | CATEGORY_SPACE => Py_UNICODE_ISSPACE c
  end.

Definition item_match (it : set_item) (c : Z) : bool :=
  match it with
  | IN_LITERAL x => c =? x
  | RANGE lo hi => (lo <=? c) && (c <=? hi)
  | CATEGORY k => category_match k c
  end.

Definition in_set (items : list set_item) (c : Z) : bool :=
  existsb (fun it => item_match it c) items.

(** [^] holds at index 0 only; [$] holds at the end of the text and just
    before a newline that ends the text (no MULTILINE flag). *)
Definition at_match (a : at_code) (st : state) : bool :=
  match a with
  | AT_BEGINNING => Nat.eqb (fst st) 0
  | AT_END =>
    match snd st with
    | [] => true
    | [c] => c =? NEWLINE
    | _ => false
    end
  end.

Definition one_char (p : Z -> bool) (st : state) : list state :=
  match snd st with
  | c :: r => if p c then [(S (fst st), r)] else []
  | [] => []
  end.

Fixpoint iter_exact (step : state -> list state) (n : nat)
    (sts : list state) : list state :=
  match n with
  | O => sts
  | S n' => iter_exact step n' (flat_map step sts)
  end.

(** The states after zero to [n] further rounds. *)
Fixpoint iter_upto (step : state -> list state) (n : nat)
    (sts : list state) : list state :=
  match n with
  | O => sts
  | S n' => sts ++ iter_upto step n' (flat_map step sts)
  end.

Fixpoint match_op (o : op) (st : state) {struct o} : list state :=
  match o with
  | AT a => if at_match a st then [st] else []
  | LITERAL c => one_char (Z.eqb c) st
  | IN items => one_char (in_set items) st
  | SUBPATTERN _ body =>
    (fix seq (p : list op) (sts : list state) {struct p} : list state :=
       match p with
       | [] => sts
       | o' :: p' => seq p' (flat_map (match_op o') sts)
       end) body [st]
  | MAX_REPEAT lo hi body =>
    let step := fun s : state =>
      (fix seq (p : list op) (sts : list state) {struct p} : list state :=
         match p with
         | [] => sts
         | o' :: p' => seq p' (flat_map (match_op o') sts)
         end) body [s] in
    let extra :=
      match hi with
      | Some h => (h - lo)%nat
      | None => length (snd st)
      end in
    iter_upto step extra (iter_exact step lo [st])
  end.

Fixpoint match_seq (p : list op) (sts : list state) : list state :=
  match p with
  | [] => sts
  | o :: p' => match_seq p' (flat_map (match_op o) sts)
  end.

(** [re.match]: the pattern is tried at index 0 only; the result is a
    match object or [None]. *)
Definition re_match (pattern : list op) (s : pystr) : option state :=
  head (match_seq pattern [(O, s)]).

Definition truthy {A} (m : option A) : bool :=
  match m with Some _ => true | None => false end.

End sre.
Import sre.

(** ** class Validator: the patterns *)

Definition DIGIT : op := IN [CATEGORY CATEGORY_DIGIT].

(** ['^(\+7[\-][(]\d{3}[)][\-]\d{3}[\-]\d{2}[\-]\d{2})$'] *)
Definition telephone_pattern : list op :=
  [AT AT_BEGINNING;
   SUBPATTERN 1
     [LITERAL (ord "+"); LITERAL (ord "7"); LITERAL (ord "-");
      LITERAL (ord "("); MAX_REPEAT 3 (Some 3%nat) [DIGIT];
      LITERAL (ord ")"); LITERAL (ord "-");
      MAX_REPEAT 3 (Some 3%nat) [DIGIT]; LITERAL (ord "-");
      MAX_REPEAT 2 (Some 2%nat) [DIGIT]; LITERAL (ord "-");
      MAX_REPEAT 2 (Some 2%nat) [DIGIT]];
   AT AT_END].

(** ['^\\d{11}$'] *)
Definition snils_pattern : list op :=
  [AT AT_BEGINNING; MAX_REPEAT 11 (Some 11%nat) [DIGIT]; AT AT_END].

(** ['^\\d{2} \\d{2}$'] *)
Definition passport_pattern : list op :=
  [AT AT_BEGINNING; MAX_REPEAT 2 (Some 2%nat) [DIGIT]; LITERAL (ord " ");
   MAX_REPEAT 2 (Some 2%nat) [DIGIT]; AT AT_END].

(** Code points of the Cyrillic ranges of the patterns. *)
Definition cyr_a : Z := 1072.     (* U+0430, first of [а-я] *)
Definition cyr_ya : Z := 1103.    (* U+044F, last of [а-я] *)
Definition cyr_A : Z := 1040.     (* U+0410, first of [А-Я] *)
Definition cyr_YA : Z := 1071.    (* U+042F, last of [А-Я] *)

(** ['^[а-яА-Я-\s]+\d+$'] *)
Definition address_pattern : list op :=
  [AT AT_BEGINNING;
   MAX_REPEAT 1 None
     [IN [RANGE cyr_a cyr_ya; RANGE cyr_A cyr_YA; IN_LITERAL (ord "-");
          CATEGORY CATEGORY_SPACE]];
   MAX_REPEAT 1 None [DIGIT];
   AT AT_END].

(** ['^[а-яА-Я-\s\.]+$'] *)
Definition university_pattern : list op :=
  [AT AT_BEGINNING;
   MAX_REPEAT 1 None
     [IN [RANGE cyr_a cyr_ya; RANGE cyr_A cyr_YA; IN_LITERAL (ord "-");
          CATEGORY CATEGORY_SPACE; IN_LITERAL (ord ".")]];
   AT AT_END].

(** ['^[a-zA-Zа-яА-Я -]+$'] *)
Definition degree_class : list set_item :=
  [RANGE (ord "a") (ord "z"); RANGE (ord "A") (ord "Z");
   RANGE cyr_a cyr_ya; RANGE cyr_A cyr_YA;
   IN_LITERAL (ord " "); IN_LITERAL (ord "-")].

Definition degree_pattern : list op :=
  [AT AT_BEGINNING; MAX_REPEAT 1 None [IN degree_class]; AT AT_END].

(** ['^[a-zA-Zа-яА-Я -]+$'] *)
Definition worldview_pattern : list op :=
  [AT AT_BEGINNING; MAX_REPEAT 1 None [IN degree_class]; AT AT_END].

(** ** class Validator: the checks that use [re] *)

Definition check_telephone (telephone : pystr) : bool :=
  if truthy (re_match telephone_pattern telephone) then true else false.

Definition check_snils (snils : pystr) : bool :=
  if truthy (re_match snils_pattern snils) then true else false.

Definition check_passport (passport : pystr) : bool :=
  if truthy (re_match passport_pattern passport) then true else false.

Definition check_address (address : pystr) : bool :=
  if truthy (re_match address_pattern address) then true else false.

Definition check_university (university : pystr) : bool :=
  if truthy (re_match university_pattern university) then true else false.

Definition check_degree (degree : pystr) : bool :=
  if truthy (re_match degree_pattern degree) then true else false.

Definition check_worldview (worldview : pystr) : bool :=
  if truthy (re_match worldview_pattern worldview) then true else false.

(** ** The builtins [int] and [float] on a [str] argument *)

(** Settings of the interpreter the builtins depend on.
    [int_max_str_digits] is [sys.get_int_max_str_digits()]: from
    CPython 3.11 on, [int] refuses numerals of more digits with a
    [ValueError]; 0 lifts the limit, which is also the behaviour of the
    earlier versions. *)
Class Interp := { int_max_str_digits : nat }.

Definition Py_ISSPACE (c : Z) : bool :=
  (c =? ord " ") || ((9 <=? c) && (c <=? 13)).

Definition Py_ISDIGIT (c : Z) : bool := (ord "0" <=? c) && (c <=? ord "9").

Definition UNDERSCORE : Z := ord "_".

(** [_PyUnicode_TransformDecimalAndSpaceToASCII]: an ASCII string is
    kept; otherwise spaces become [' '] and decimal digits their ASCII
    digit, and the text is cut after a [?] at the first other character
    above ASCII. *)
Fixpoint transform_chars (s : pystr) : pystr :=
  match s with
  | [] => []
  | ch :: s' =>
    if ch <? 127 then ch :: transform_chars s'
    else if Py_UNICODE_ISSPACE ch then ord " " :: transform_chars s'
    else
      match Py_UNICODE_TODECIMAL ch with
      | Some d => (ord "0" + d) :: transform_chars s'
      | None => [ord "?"]
      end
  end.

Definition TransformDecimalAndSpaceToASCII (s : pystr) : pystr :=
  if forallb (fun ch => ch <? 128) s then s else transform_chars s.

Fixpoint lstrip (s : pystr) : pystr :=
  match s with
  | c :: s' => if Py_ISSPACE c then lstrip s' else s
  | [] => []
  end.

Definition rstrip (s : pystr) : pystr := rev (lstrip (rev s)).

(** The digit loop of [PyLong_FromString] in base 10: digits with single
    underscores between them.  Returns the value, the number of digits
    and the text left, or [None] for a misplaced underscore. *)
Fixpoint scan_digits (str : pystr) (prev : Z) (value : Z) (digits : nat)
    : option (Z * nat * pystr) :=
  match str with
  | c :: str' =>
    if c =? UNDERSCORE then
      if prev =? UNDERSCORE then None
      else scan_digits str' c value digits
    else if Py_ISDIGIT c then
      scan_digits str' c (value * 10 + (c - ord "0")) (S digits)
    else if prev =? UNDERSCORE then None
    else Some (value, digits, str)
  | [] => if prev =? UNDERSCORE then None else Some (value, digits, [])
  end.

Definition PY_LONG_MAX_STR_DIGITS_THRESHOLD : nat := 640.

Definition too_many_digits `{Interp} (digits : nat) : bool :=
  (PY_LONG_MAX_STR_DIGITS_THRESHOLD <? digits)%nat
  && (0 <? int_max_str_digits)%nat
  && (int_max_str_digits <? digits)%nat.

Definition split_sign (s : pystr) : bool * pystr :=
  match s with
  | c :: s' =>
    if c =? ord "+" then (false, s')
    else if c =? ord "-" then (true, s')
    else (false, s)
  | [] => (false, [])
  end.

(** [int(s)] for a [str]; [None] is [ValueError]. *)
Definition py_int `{Interp} (s : pystr) : option Z :=
  let str := lstrip (TransformDecimalAndSpaceToASCII s) in
  let (negative, str) := split_sign str in
  match str with
  | c :: _ =>
    if c =? UNDERSCORE then None
    else
      match scan_digits str 0 0 0 with
      | None => None
      | Some (value, digits, str') =>
        if Nat.eqb digits 0 then None
        else if too_many_digits digits then None
        else
          match lstrip str' with
          | [] => Some (if negative then - value else value)
          | _ :: _ => None
          end
      end
  | [] => None
  end.

(** A [float] is a NaN, an infinity, or a finite binary64 number, kept
    as the rational it denotes (the two zeros compare equal and are both
    0). *)
Inductive pyfloat :=
| F_nan
| F_inf (negative : bool)
| F_finite (q : Q).

Definition Qltb (x y : Q) : bool :=
  match Qcompare x y with Lt => true | _ => false end.

(** [a < b] on floats; every comparison with a NaN is false. *)
Definition float_lt (a b : pyfloat) : bool :=
  match a, b with
  | F_nan, _ | _, F_nan => false
  | F_inf na, F_inf nb => na && negb nb
  | F_inf na, F_finite _ => na
  | F_finite _, F_inf nb => negb nb
  | F_finite x, F_finite y => Qltb x y
  end.

Definition float_gt (a b : pyfloat) : bool := float_lt b a.

Definition pow2 (e : Z) : Q := Qpower 2 e.

(** The nearest integer, ties to the even one. *)
Definition round_half_even (x : Q) : Z :=
  let f := Qfloor x in
  match Qcompare (x - inject_Z f) (1 # 2) with
  | Lt => f
  | Gt => f + 1
  | Eq => if Z.even f then f else f + 1
  end.

(** [floor (log2 x)] for a positive [x]. *)
Definition ilog2 (x : Q) : Z :=
  let e := Z.log2 (Qnum x) - Z.log2 (Zpos (Qden x)) in
  if Qle_bool (pow2 e) x then e else e - 1.

(** Rounding of a positive rational to binary64, to nearest, ties to
    even: 53 bits, least exponent -1022 (below it the spacing stays
    2^-1074), overflow from 2^1024 on. *)
Definition nearest_binary64 (x : Q) : Q :=
  let e := Z.max (ilog2 x) (-1022) in
  let ulp := pow2 (e - 52) in
  (inject_Z (round_half_even (x / ulp)) * ulp)%Q.

Definition round_binary64_pos (x : Q) : option Q :=
  let y := nearest_binary64 x in
  if Qle_bool (pow2 1024) y then None else Some y.

Definition round_binary64 (negative : bool) (x : Q) : pyfloat :=
  match Qcompare 0 x with
  | Lt =>
    match round_binary64_pos x with
    | Some y => F_finite (if negative then - y else y)%Q
    | None => F_inf negative
    end
  | _ => F_finite 0
  end.

(** The longest prefix of ASCII digits, and the rest. *)
Fixpoint span_digits (s : pystr) : pystr * pystr :=
  match s with
  | c :: s' =>
    if Py_ISDIGIT c then
      let (ds, r) := span_digits s' in (c :: ds, r)
    else ([], s)
  | [] => ([], [])
  end.

Definition digits_value (ds : pystr) : Z :=
  fold_left (fun v c => v * 10 + (c - ord "0")) ds 0.

(** A decimal numeral: sign, coefficient [m] and exponent [e], for the
    number [m * 10^e]. *)
Record decimal := { d_negative : bool; d_coeff : Z; d_exp : Z }.

Definition decimal_value (d : decimal) : Q :=
  (inject_Z (d_coeff d) * Qpower 10 (d_exp d))%Q.

Definition signed_value (d : decimal) : Q :=
  if d_negative d then (- decimal_value d)%Q else decimal_value d.

(** The optional exponent part: [e] or [E], an optional sign, digits.
    [None] when the text is not exactly an exponent part (or empty). *)
Definition parse_exponent (s : pystr) : option Z :=
  match s with
  | [] => Some 0
  | c :: s1 =>
    if (c =? ord "e") || (c =? ord "E") then
      let (negative, s2) := split_sign s1 in
      match span_digits s2 with
      | ((_ :: _) as ds, []) =>
        Some (if negative then - digits_value ds else digits_value ds)
      | _ => None
      end
    else None
  end.

(** The numerals [strtod] of CPython accepts: an optional sign, digits
    with an optional point, at least one digit, an optional exponent;
    the whole text must be used. *)
Definition parse_decimal (s : pystr) : option decimal :=
  let (negative, s1) := split_sign s in
  let (int_part, s2) := span_digits s1 in
  let (frac_part, s3) :=
    match s2 with
    | c :: s2' => if c =? ord "." then span_digits s2' else ([], s2)
    | [] => ([], [])
    end in
  match int_part ++ frac_part with
  | [] => None
  | (_ :: _) as ds =>
    match parse_exponent s3 with
    | Some e =>
      Some {| d_negative := negative; d_coeff := digits_value ds;
              d_exp := e - Z.of_nat (length frac_part) |}
    | None => None
    end
  end.

Definition lower (c : Z) : Z :=
  if (ord "A" <=? c) && (c <=? ord "Z") then c + 32 else c.

Definition pystr_eqb (a b : pystr) : bool := bool_decide (a = b).

(** [_Py_parse_inf_or_nan]: a sign, then [inf], [infinity] or [nan] in
    any case. *)
Definition parse_inf_or_nan (s : pystr) : option pyfloat :=
  let (negative, s1) := split_sign s in
  let w := map lower s1 in
  if pystr_eqb w (u "inf") || pystr_eqb w (u "infinity")
  then Some (F_inf negative)
  else if pystr_eqb w (u "nan") then Some F_nan
  else None.

(** [_Py_string_to_number_with_underscores]: an underscore must stand
    between two digits; the underscores are removed. *)
Fixpoint remove_underscores (s : pystr) (prev : Z) : option pystr :=
  match s with
  | c :: s' =>
    if c =? UNDERSCORE then
      if Py_ISDIGIT prev then remove_underscores s' c else None
    else if (prev =? UNDERSCORE) && negb (Py_ISDIGIT c) then None
    else option_map (cons c) (remove_underscores s' c)
  | [] => if prev =? UNDERSCORE then None else Some []
  end.

Definition string_to_double (s : pystr) : option pyfloat :=
  match parse_decimal s with
  | Some d => Some (round_binary64 (d_negative d) (decimal_value d))
  | None => parse_inf_or_nan s
  end.

(** The text [float] hands to [strtod]: spaces and digits brought to
    ASCII, white space stripped at both ends, underscores removed;
    [None] for an empty text or a misplaced underscore. *)
Definition float_text (s : pystr) : option pystr :=
  match rstrip (lstrip (TransformDecimalAndSpaceToASCII s)) with
  | [] => None
  | (_ :: _) as s' => remove_underscores s' 0
  end.

(** [float(s)] for a [str]; [None] is [ValueError]. *)
Definition py_float (s : pystr) : option pyfloat :=
  match float_text s with
  | Some s' => string_to_double s'
  | None => None
  end.

(** A float literal of the source text. *)
Definition float_literal (token : string) : pyfloat :=
  match string_to_double (u token) with
  | Some f => f
  | None => F_nan
  end.
Arguments float_literal token%_string.

(** ** class Validator: the numeric checks *)

Definition check_height (height : pystr) : bool :=
  match py_float height with
  | None => false
  | Some fheight =>
    float_gt fheight (float_literal "1.20")
    && float_lt fheight (float_literal "2.10")
  end.

Definition check_work_experience `{Interp} (work_experience : pystr) : bool :=
  match py_int work_experience with
  | None => false
  | Some iyears => (iyears >=? 2) && (iyears <? 20)
  end.

(** ** Exceptions *)

Inductive exn :=
| KeyError (key : pystr).

Inductive outcome (A : Type) :=
| Ok (a : A)
| Raise (e : exn).
Arguments Ok {A} a.
Arguments Raise {A} e.

Definition bind {A B} (r : outcome A) (k : A -> outcome B) : outcome B :=
  match r with
  | Ok a => k a
  | Raise e => Raise e
  end.

Notation "x <- r ;; k" := (bind r (fun x => k))
  (at level 100, r at next level, right associativity).

(** ** class Entry *)

(** A JSON object of the input: keys to values.  The fields are declared
    [str] by the class, and so are the values here. *)
Abbreviation pydict := (gmap pystr pystr).

(** [dic[key]] *)
Definition getitem (dic : pydict) (key : pystr) : outcome pystr :=
  match dic !! key with
  | Some v => Ok v
  | None => Raise (KeyError key)
  end.

Record Entry := {
  curdict : pydict;
  telephone : pystr;
  height : pystr;
  snils : pystr;
  passport_series : pystr;
  university : pystr;
  work_experience : pystr;
  academic_degree : pystr;
  worldview : pystr;
  address : pystr
}.

(** [Entry.__init__] *)
Definition Entry_init (dic : pydict) : outcome Entry :=
  v_telephone <- getitem dic (u "telephone") ;;
  v_height <- getitem dic (u "height") ;;
  v_snils <- getitem dic (u "snils") ;;
  v_passport_series <- getitem dic (u "passport_series") ;;
  v_university <- getitem dic (u "university") ;;
  v_work_experience <- getitem dic (u "work_experience") ;;
  v_academic_degree <- getitem dic (u "academic_degree") ;;
  v_worldview <- getitem dic (u "worldview") ;;
  v_address <- getitem dic (u "address") ;;
  Ok {| curdict := dic;
        telephone := v_telephone;
        height := v_height;
        snils := v_snils;
        passport_series := v_passport_series;
        university := v_university;
        work_experience := v_work_experience;
        academic_degree := v_academic_degree;
        worldview := v_worldview;
        address := v_address |}.

(** ** class Validator *)

Record Validator := { entries : list Entry }.

(** [Validator.__init__]: the loop appends [Entry(i)] for every [i]. *)
Fixpoint Validator_init_loop (todo : list pydict) (self_entries : list Entry)
    : outcome (list Entry) :=
  match todo with
  | [] => Ok self_entries
  | i :: todo' =>
    e <- Entry_init i ;;
    Validator_init_loop todo' (self_entries ++ [e])
  end.

Definition Validator_init (entries : list pydict) : outcome Validator :=
  es <- Validator_init_loop entries [] ;;
  Ok {| entries := es |}.

(** [Validator.parse_entry] *)
Definition parse_entry `{Interp} (entry : Entry) : list pystr :=
  let illegal_keys : list pystr := [] in
  if negb (check_telephone (telephone entry)) then
    illegal_keys ++ [u "telephone"]
  else if negb (check_snils (snils entry)) then
    illegal_keys ++ [u "snils"]
  else if negb (check_passport (passport_series entry)) then
    illegal_keys ++ [u "passport_series"]
  else if negb (check_height (height entry)) then
    illegal_keys ++ [u "height"]
  else if negb (check_work_experience (work_experience entry)) then
    illegal_keys ++ [u "work_experience"]
  else if negb (check_address (address entry)) then
    illegal_keys ++ [u "address"]
  else if negb (check_university (university entry)) then
    illegal_keys ++ [u "university"]
  else if negb (check_degree (academic_degree entry)) then
    illegal_keys ++ [u "academic_degree"]
  else if negb (check_worldview (worldview entry)) then
    illegal_keys ++ [u "worldview"]
  else illegal_keys.

(** [Validator.parse]: the loop over [self.entries] with its two
    accumulators. *)
Fixpoint parse_loop `{Interp} (todo : list Entry)
    (illegal_entries : list (list pystr)) (legal_entries : list Entry)
    : list (list pystr) * list Entry :=
  match todo with
  | [] => (illegal_entries, legal_entries)
  | i :: todo' =>
    let illkeys := parse_entry i in
    if negb (Nat.eqb (length illkeys) 0) then
      parse_loop todo' (illegal_entries ++ [illkeys]) legal_entries
    else
      parse_loop todo' illegal_entries (legal_entries ++ [i])
  end.

Definition parse `{Interp} (self : Validator)
    : list (list pystr) * list Entry :=
  parse_loop (entries self) [] [].

(** ** show_summary *)

(** [str(n)] and [%d] for a count. *)
Fixpoint uint_chars (d : Decimal.uint) : pystr :=
  match d with
  | Decimal.Nil => []
  | Decimal.D0 d' => ord "0" :: uint_chars d'
  | Decimal.D1 d' => ord "1" :: uint_chars d'
  | Decimal.D2 d' => ord "2" :: uint_chars d'
  | Decimal.D3 d' => ord "3" :: uint_chars d'
  | Decimal.D4 d' => ord "4" :: uint_chars d'
  | Decimal.D5 d' => ord "5" :: uint_chars d'
  | Decimal.D6 d' => ord "6" :: uint_chars d'
  | Decimal.D7 d' => ord "7" :: uint_chars d'
  | Decimal.D8 d' => ord "8" :: uint_chars d'
  | Decimal.D9 d' => ord "9" :: uint_chars d'
  end.

Definition str_of_nat (n : nat) : pystr := uint_chars (Nat.to_uint n).

(** The dict literal of [show_summary], in insertion order. *)
Definition errors_count_init : list (pystr * nat) :=
  [(u "telephone", O);
   (u "height", O);
   (u "snils", O);
   (u "passport_series", O);
   (u "university", O);
   (u "work_experience", O);
   (u "academic_degree", O);
   (u "worldview", O);
   (u "address", O)].

(** [errors_count[j] += 1]: the entry keeps its place; a key that is not
    in the dict raises. *)
Fixpoint increment (errors_count : list (pystr * nat)) (j : pystr)
    : outcome (list (pystr * nat)) :=
  match errors_count with
  | [] => Raise (KeyError j)
  | (key, value) :: errors_count' =>
    if pystr_eqb key j then Ok ((key, S value) :: errors_count')
    else
      rest <- increment errors_count' j ;;
      Ok ((key, value) :: rest)
  end.

(** The counters of [show_summary]. *)
Definition counters : Type := nat * list (pystr * nat).

Fixpoint count_inner (i : list pystr) (acc : counters) : outcome counters :=
  match i with
  | [] => Ok acc
  | j :: i' =>
    errors_count <- increment (snd acc) j ;;
    count_inner i' (S (fst acc), errors_count)
  end.

Fixpoint count_outer (result : list (list pystr)) (acc : counters)
    : outcome counters :=
  match result with
  | [] => Ok acc
  | i :: result' =>
    acc' <- count_inner i acc ;;
    count_outer result' acc'
  end.

(** What a call leaves behind: text on standard output, or a file. *)
Inductive output :=
| Printed (text : pystr)
| Written (filename : pystr) (content : pystr).

(** [print(key, ': ', value, sep='')] and
    [file.write(key + ': ' + str(value) + NEWLINE)] produce the same line. *)
Definition item_line (kv : pystr * nat) : pystr :=
  fst kv ++ u ": " ++ str_of_nat (snd kv) ++ [NEWLINE].

(** The two [print] calls before the loop, then the loop. *)
Definition summary_stdout (all_errors_count : nat)
    (errors_count : list (pystr * nat)) : pystr :=
  (([NEWLINE] ++ u "Всего ошибок: " ++ str_of_nat all_errors_count
      ++ [NEWLINE]) ++ [NEWLINE])
  ++ (u "Количество ошибок по типам: " ++ [NEWLINE])
  ++ concat (map item_line errors_count).

(** The [file.write] call before the loop, then the loop. *)
Definition summary_file (all_errors_count : nat)
    (errors_count : list (pystr * nat)) : pystr :=
  (u "Всего ошибок: " ++ str_of_nat all_errors_count ++ [NEWLINE])
  ++ concat (map item_line errors_count).

Definition show_summary (result : list (list pystr)) (filename : pystr)
    : outcome output :=
  acc <- count_outer result (O, errors_count_init) ;;
  let (all_errors_count, errors_count) := acc : counters in
  if pystr_eqb filename [] then
    Ok (Printed (summary_stdout all_errors_count errors_count))
  else
    Ok (Written filename (summary_file all_errors_count errors_count)).

(** ** The run of the script on the loaded data *)

Definition run `{Interp} (data : list pydict) (output_file : pystr)
    : outcome (output * list Entry) :=
  val <- Validator_init data ;;
  let res := parse val in
  out <- show_summary (fst res) output_file ;;
  Ok (out, snd res).

(** ** save_in_json *)

Definition QUOTE : Z := 34.

(** One line of the template, with its [%s] replaced by the value: the
    key in quotes, the value in quotes or bare, a comma. *)
Definition json_member (key : string) (quoted : bool) (value : pystr)
    : pystr :=
  u "      " ++ [QUOTE] ++ u key ++ [QUOTE] ++ u ": "
  ++ (if quoted then [QUOTE] ++ value ++ [QUOTE] else value)
  ++ u "," ++ [NEWLINE].
Arguments json_member key%_string quoted value.

(** The template of [save_in_json] applied to the nine fields of a
    record. *)
Definition json_block (i : Entry) : pystr :=
  [NEWLINE] ++ u "    {" ++ [NEWLINE]
  ++ json_member "telephone" true (telephone i)
  ++ json_member "height" false (height i)
  ++ json_member "snils" true (snils i)
  ++ json_member "passport_series" true (passport_series i)
  ++ json_member "university" true (university i)
  ++ json_member "work_experience" false (work_experience i)
  ++ json_member "academic_degree" true (academic_degree i)
  ++ json_member "worldview" true (worldview i)
  ++ json_member "address" true (address i)
  ++ u "    },".

(** What [save_in_json] writes: the loop over [data] between the two
    other [f.write] calls. *)
Fixpoint json_blocks (data : list Entry) (written : pystr) : pystr :=
  match data with
  | [] => written
  | i :: data' => json_blocks data' (written ++ json_block i)
  end.

Definition save_in_json (data : list Entry) (filename : pystr) : output :=
  Written filename (json_blocks data (u "[") ++ ([NEWLINE] ++ u "]")).

(** ** The script *)

(** Standard output and the files, by name. *)
Record world := { stdout : pystr; files : gmap pystr pystr }.

(** [print] appends to standard output; a file opened with mode ['w']
    and closed holds what was written, whatever it held before.  Files
    hold text: [open] is taken to succeed for every name, so the
    OSError of a name that cannot be opened is outside this model, and
    the encoding of the text to bytes is left out, as is the progress
    bar, which goes to standard error. *)
Definition perform (o : output) (w : world) : world :=
  match o with
  | Printed text => {| stdout := stdout w ++ text; files := files w |}
  | Written filename content =>
    {| stdout := stdout w; files := <[filename := content]> (files w) |}
  end.

(** The statements of the script after [json.load]: the validator is
    built from [data], the batch classified, the summary shown and the
    valid records saved under the fixed name. *)
Definition script `{Interp} (data : list pydict) (output_file : pystr)
    (w : world) : outcome world :=
  val <- Validator_init data ;;
  let res := parse val in
  out <- show_summary (fst res) output_file ;;
  let w1 := perform out w in
  Ok (perform (save_in_json (snd res) (u "valid_data.txt")) w1).

(** ** Notions the properties are stated with *)

(** A record is legal when [parse_entry] reports nothing. *)
Definition is_legal `{Interp} (e : Entry) : bool :=
  Nat.eqb (length (parse_entry e)) 0.

Definition is_illegal `{Interp} (e : Entry) : bool := negb (is_legal e).

(** The fields with their checks, in the order of the specification:
    telephone, snils, passport_series, height, work_experience, address,
    university, academic_degree, worldview. *)
Definition CHECK_ORDER `{Interp} : list (pystr * (Entry -> bool)) :=
  [(u "telephone", fun e => check_telephone (telephone e));
   (u "snils", fun e => check_snils (snils e));
   (u "passport_series", fun e => check_passport (passport_series e));
   (u "height", fun e => check_height (height e));
   (u "work_experience", fun e => check_work_experience (work_experience e));
   (u "address", fun e => check_address (address e));
   (u "university", fun e => check_university (university e));
   (u "academic_degree", fun e => check_degree (academic_degree e));
   (u "worldview", fun e => check_worldview (worldview e))].

(** The name of the first field, in that order, whose check fails. *)
Definition first_failing `{Interp} (e : Entry) : option pystr :=
  option_map fst (find (fun c => negb (snd c e)) CHECK_ORDER).

(** The nine keys a record needs. *)
Definition REQUIRED_KEYS : list pystr :=
  [u "telephone"; u "height"; u "snils"; u "passport_series";
   u "university"; u "work_experience"; u "academic_degree";
   u "worldview"; u "address"].

(** The order of the fields in the error summary. *)
Definition SUMMARY_FIELDS : list pystr :=
  [u "telephone"; u "height"; u "snils"; u "passport_series";
   u "university"; u "work_experience"; u "academic_degree";
   u "worldview"; u "address"].

(** The decimal numeral [float] reads in a text, if it reads one. *)
Definition numeral (s : pystr) : option decimal :=
  match float_text s with
  | Some s' => parse_decimal s'
  | None => None
  end.

(** The binary64 numbers nearest to 1.20 and 2.10, as [m * 2^e]. *)
Definition M_1_20 : Z := 5404319552844595.
Definition M_2_10 : Z := 4728779608739021.
Definition double_1_20 : Q := (inject_Z M_1_20 * pow2 (-52))%Q.
Definition double_2_10 : Q := (inject_Z M_2_10 * pow2 (-51))%Q.

(** The least and the greatest rational that [float] rounds to a number
    above the first and below the second: the midpoints
    [(M_1_20 + 1/2) * 2^-52] and [(M_2_10 - 1/2) * 2^-51]. *)
Definition HEIGHT_LOW : Q := 10808639105689191 # 9007199254740992.
Definition HEIGHT_HIGH : Q := 9457559217478041 # 4503599627370496.

(** The seven checks that use [re]. *)
Definition regex_checks : list (pystr -> bool) :=
  [check_telephone; check_snils; check_passport; check_address;
   check_university; check_degree; check_worldview].

Definition ends_with_newline (s : pystr) : bool :=
  match rev s with
  | c :: _ => c =? NEWLINE
  | [] => false
  end.

(** Latin letters, and the characters of the two Cyrillic ranges of the
    patterns. *)
Definition latin_letter (c : Z) : bool :=
  ((ord "a" <=? c) && (c <=? ord "z")) || ((ord "A" <=? c) && (c <=? ord "Z")).

Definition in_cyrillic_ranges (c : Z) : bool :=
  ((cyr_a <=? c) && (c <=? cyr_ya)) || ((cyr_A <=? c) && (c <=? cyr_YA)).

(** The Cyrillic letters as the docstrings of [check_degree] and
    [check_worldview] name them: the letters of the Russian alphabet.
    Thirty-two of the lower-case and thirty-two of the upper-case
    letters lie in the two ranges; the remaining letter, io, lies
    outside them, at U+0451 and U+0401. *)
Definition cyr_io : Z := 1105.    (* U+0451 *)
Definition cyr_IO : Z := 1025.    (* U+0401 *)

Definition is_io (c : Z) : bool := (c =? cyr_io) || (c =? cyr_IO).

Definition cyrillic_letter (c : Z) : bool := in_cyrillic_ranges c || is_io c.

(** The strings of one or more characters from Latin letters, Cyrillic
    letters, hyphen and [whitespace], for a given reading of
    "whitespace". *)
Definition letters_hyphen_whitespace (whitespace : Z -> bool) (s : pystr)
    : bool :=
  negb (Nat.eqb (length s) 0)
  && forallb (fun c => latin_letter c || cyrillic_letter c
                       || (c =? ord "-") || whitespace c) s.

Definition is_space (c : Z) : bool := c =? ord " ".

(** The number a run of ASCII digits denotes in base ten. *)
Definition base_ten_value (s : pystr) : Z :=
  fold_left (fun acc c => acc * 10 + (c - ord "0")) s 0.

(** A pattern in which [$] does not occur. *)
Fixpoint end_free (o : op) : bool :=
  match o with
  | AT AT_END => false
  | AT AT_BEGINNING => true
  | LITERAL _ => true
  | IN _ => true
  | MAX_REPEAT _ _ body => forallb end_free body
  | SUBPATTERN _ body => forallb end_free body
  end.

(** The state [st] with the text [t] appended to what is left to read. *)
Definition extend (t : pystr) (st : state) : state := (fst st, snd st ++ t).

(** A matcher step that goes through when more text follows, and a
    step that only moves forward in the text. *)
Definition extends (f : state -> list state) : Prop :=
  forall t st st', In st' (f st) -> In (extend t st') (f (extend t st)).

Definition consumes (f : state -> list state) : Prop :=
  forall st st', In st' (f st) -> exists c, snd st = c ++ snd st'.

(** A matcher step [f] reads exactly the texts of the language [L]:
    from any state it reaches the states that lie one text of [L]
    further on. *)
Definition reads (f : state -> list state) (L : pystr -> Prop) : Prop :=
  forall st st',
    In st' (f st) <->
    exists c, L c /\ snd st = c ++ snd st'
              /\ fst st' = (fst st + length c)%nat.

(** A run of [n] decimal digits. *)
Definition digits (n : nat) (c : pystr) : Prop :=
  length c = n /\ forallb Py_UNICODE_ISDECIMAL c = true.

(** The class of [check_address]: the Cyrillic ranges, hyphen, white
    space; and the class of [check_university], with the full stop. *)
Definition address_char (c : Z) : bool :=
  in_cyrillic_ranges c || (c =? ord "-") || Py_UNICODE_ISSPACE c.

Definition university_char (c : Z) : bool :=
  in_cyrillic_ranges c || (c =? ord "-") || Py_UNICODE_ISSPACE c
  || (c =? ord ".").

(** The end of an accepted text: nothing, or one newline. *)
Definition optional_newline (r : pystr) : Prop := r = [] \/ r = [NEWLINE].

(** The value under a key, or the empty text. *)
Definition value_of (dic : pydict) (key : pystr) : pystr :=
  default [] (dic !! key).

(** The record that [Entry.__init__] builds from a dict that has the
    nine keys. *)
Definition Entry_of_dict (dic : pydict) : Entry :=
  {| curdict := dic;
     telephone := value_of dic (u "telephone");
     height := value_of dic (u "height");
     snils := value_of dic (u "snils");
     passport_series := value_of dic (u "passport_series");
     university := value_of dic (u "university");
     work_experience := value_of dic (u "work_experience");
     academic_degree := value_of dic (u "academic_degree");
     worldview := value_of dic (u "worldview");
     address := value_of dic (u "address") |}.

(** The first required key, in the order [Entry.__init__] reads them,
    that a dict lacks; and the first such key of the first record of a
    batch that lacks one. *)
Definition first_missing (dic : pydict) : option pystr :=
  find (fun key => bool_decide (dic !! key = None)) REQUIRED_KEYS.

Fixpoint first_error (data : list pydict) : option pystr :=
  match data with
  | [] => None
  | d :: data' =>
    match first_missing d with
    | Some key => Some key
    | None => first_error data'
    end
  end.

(** How often a name occurs among the reasons, and the first reason
    that is not one of the nine field names. *)
Definition count_name (key : pystr) (names : list pystr) : nat :=
  length (List.filter (pystr_eqb key) names).

Definition unknown_name (names : list pystr) : option pystr :=
  find (fun j => negb (existsb (fun key => pystr_eqb key j) SUMMARY_FIELDS))
       names.

(** The summary for a total and a table of counts, on standard output
    or in the file. *)
Definition summary_output (filename : pystr) (total : nat)
    (table : list (pystr * nat)) : output :=
  if pystr_eqb filename [] then Printed (summary_stdout total table)
  else Written filename (summary_file total table).

(** The nine checks of a record. *)
Definition passes_all_checks `{Interp} (e : Entry) : bool :=
  check_telephone (telephone e) && check_snils (snils e)
  && check_passport (passport_series e) && check_height (height e)
  && check_work_experience (work_experience e)
  && check_address (address e) && check_university (university e)
  && check_degree (academic_degree e) && check_worldview (worldview e).

Definition has_empty_field (e : Entry) : bool :=
  existsb (fun v => Nat.eqb (length v) 0)
    [telephone e; height e; snils e; passport_series e; university e;
     work_experience e; academic_degree e; worldview e; address e].

(** How many records of a batch fail first at the field [key], and the
    table of these numbers in the order of the summary. *)
Definition failures_of `{Interp} (key : pystr) (es : list Entry) : nat :=
  length (List.filter (fun e => bool_decide (first_failing e = Some key)) es).

Definition tally `{Interp} (es : list Entry) : list (pystr * nat) :=
  map (fun key => (key, failures_of key es)) SUMMARY_FIELDS.

(** The blocks of the records one after the other between the brackets. *)
Definition json_text (data : list Entry) : pystr :=
  u "[" ++ concat (map json_block data) ++ [NEWLINE] ++ u "]".

(** The interpreter settings of CPython 3.11 and later. *)
Definition cpython_3_11 : Interp := {| int_max_str_digits := 4300 |}.

(** A record that passes every check, and the same with a telephone in
    the wrong format. *)
Definition sample_dict : pydict :=
  list_to_map
    [(u "telephone", u "+7-(123)-456-78-90");
     (u "snils", u "12345678901");
     (u "passport_series", u "12 34");
     (u "height", u "1.75");
     (u "work_experience", u "5");
     (u "address", u "Ленина 10");
     (u "university", u "МГУ");
     (u "academic_degree", u "PhD");
     (u "worldview", u "atheism")].

Definition sample_entry : Entry :=
  {| curdict := sample_dict;
     telephone := u "+7-(123)-456-78-90";
     height := u "1.75";
     snils := u "12345678901";
     passport_series := u "12 34";
     university := u "МГУ";
     work_experience := u "5";
     academic_degree := u "PhD";
     worldview := u "atheism";
     address := u "Ленина 10" |}.

Definition set_telephone (t : pystr) (e : Entry) : Entry :=
  {| curdict := <[u "telephone" := t]> (curdict e);
     telephone := t;
     height := height e;
     snils := snils e;
     passport_series := passport_series e;
     university := university e;
     work_experience := work_experience e;
     academic_degree := academic_degree e;
     worldview := worldview e;
     address := address e |}.

Definition set_snils (t : pystr) (e : Entry) : Entry :=
  {| curdict := <[u "snils" := t]> (curdict e);
     telephone := telephone e;
     height := height e;
     snils := t;
     passport_series := passport_series e;
     university := university e;
     work_experience := work_experience e;
     academic_degree := academic_degree e;
     worldview := worldview e;
     address := address e |}.

(** * Properties *)

(** The checks and the literals are unfolded on request only. *)
Arguments u : simpl never.
Arguments re_match : simpl never.
Arguments py_int : simpl never.
Arguments py_float : simpl never.
Arguments check_telephone : simpl never.
Arguments check_snils : simpl never.
Arguments check_passport : simpl never.
Arguments check_height : simpl never.
Arguments check_work_experience : simpl never.
Arguments check_address : simpl never.
Arguments check_university : simpl never.
Arguments check_degree : simpl never.
Arguments check_worldview : simpl never.
Arguments parse_entry : simpl never.

(** ** The classifier *)

Section Classifier.
Context `{Interp}.

Lemma parse_loop_spec (todo : list Entry) :
  forall illegal_entries legal_entries,
    parse_loop todo illegal_entries legal_entries =
    (illegal_entries ++ map parse_entry (List.filter is_illegal todo),
     legal_entries ++ List.filter is_legal todo).
Proof.
  induction todo as [|i todo IH]; intros ill leg;
    cbn [parse_loop List.filter map].
  - now rewrite !app_nil_r.
  - unfold is_illegal, is_legal.
    destruct (Nat.eqb (length (parse_entry i)) 0); cbn [negb map];
      rewrite IH, <- app_assoc; reflexivity.
Qed.

Lemma filter_split_length (f : Entry -> bool) (l : list Entry) :
  (length (List.filter (fun e => negb (f e)) l) + length (List.filter f l)
   = length l)%nat.
Proof.
  induction l as [|a l IH]; simpl; [reflexivity|].
  destruct (f a); simpl; lia.
Qed.

Lemma filter_split_perm (f : Entry -> bool) (l : list Entry) :
  Permutation l (List.filter f l ++ List.filter (fun e => negb (f e)) l).
Proof.
  induction l as [|a l IH]; simpl; [constructor|].
  destruct (f a); simpl.
  - now constructor.
  - now apply Permutation_cons_app.
Qed.

(** C1. [Validator.parse] splits the batch in two: the second sequence
    holds the records that pass, in input order; the first holds the
    failure reasons of the other records, in input order; the two lengths
    add up to the length of the batch, and the records that pass together
    with the records that fail are a rearrangement of the batch. *)
Theorem parse_partitions_batch (self : Validator) :
  parse self =
    (map parse_entry (List.filter is_illegal (entries self)),
     List.filter is_legal (entries self))
  /\ (length (fst (parse self)) + length (snd (parse self))
      = length (entries self))%nat
  /\ Permutation (entries self)
       (snd (parse self) ++ List.filter is_illegal (entries self)).
Proof.
  unfold parse. rewrite parse_loop_spec. simpl. repeat split.
  - rewrite length_map. apply filter_split_length.
  - apply filter_split_perm.
Qed.

(** C2. [parse_entry] reports the first field that fails, in the order
    telephone, snils, passport_series, height, work_experience, address,
    university, academic_degree, worldview, as a list of that one name,
    and the empty list when no field fails; a record whose telephone and
    snils are both wrong reports only telephone. *)
Theorem parse_entry_first_failing (entry : Entry) :
  parse_entry entry =
    match first_failing entry with
    | Some name => [name]
    | None => []
    end
  /\ (check_telephone (telephone entry) = false ->
      check_snils (snils entry) = false ->
      parse_entry entry = [u "telephone"]).
Proof.
  split.
  - unfold parse_entry, first_failing, CHECK_ORDER.
    cbn [find option_map fst snd app].
    repeat match goal with
           | |- context [if negb ?b then _ else _] =>
             destruct b; cbn [negb find option_map fst snd app];
               [|reflexivity]
           end.
    reflexivity.
  - intros Ht _. unfold parse_entry. rewrite Ht. reflexivity.
Qed.

End Classifier.

Lemma parse_entry_first_failing_witness :
  check_telephone (telephone (set_telephone (u "+71234567890")
                                (set_snils (u "123") sample_entry))) = false
  /\ check_snils (snils (set_telephone (u "+71234567890")
                           (set_snils (u "123") sample_entry))) = false
  /\ @parse_entry cpython_3_11
       (set_telephone (u "+71234567890") (set_snils (u "123") sample_entry))
     = [u "telephone"].
Proof.
  split; [vm_compute; reflexivity|].
  split; [vm_compute; reflexivity|].
  apply (@parse_entry_first_failing cpython_3_11); vm_compute; reflexivity.
Defined.

(** ** Record construction *)

Lemma getitem_cases (dic : pydict) (key : pystr) :
  (exists v, dic !! key = Some v /\ getitem dic key = Ok v)
  \/ (dic !! key = None /\ getitem dic key = Raise (KeyError key)).
Proof.
  unfold getitem. destruct (dic !! key) as [v|]; [left; eauto | right; auto].
Qed.

(** [Entry.__init__] either finds the nine keys or raises for the first
    one that is absent. *)
Lemma Entry_init_cases (dic : pydict) :
  (exists e, Entry_init dic = Ok e
             /\ forall key, In key REQUIRED_KEYS -> dic !! key <> None)
  \/ (exists key, In key REQUIRED_KEYS /\ dic !! key = None
                  /\ Entry_init dic = Raise (KeyError key)).
Proof.
  unfold Entry_init, REQUIRED_KEYS.
  repeat match goal with
  | |- context [bind (getitem dic ?k) _] =>
    destruct (getitem_cases dic k) as [(?v & ?Hl & ->) | (?Hl & ->)];
      cbn [bind];
      [ | right; exists k; split; [cbn [In]; tauto | split; [assumption | reflexivity]]]
  end.
  left. eexists. split; [reflexivity|].
  intros key Hin. cbn [In] in Hin.
  repeat match type of Hin with
         | _ \/ _ => destruct Hin as [<- | Hin]; [congruence|]
         end.
  contradiction.
Qed.

Lemma Validator_init_loop_raises (todo : list pydict) :
  forall self_entries d key,
    In d todo -> In key REQUIRED_KEYS -> d !! key = None ->
    exists k, In k REQUIRED_KEYS
              /\ Validator_init_loop todo self_entries = Raise (KeyError k).
Proof.
  induction todo as [|i todo IH]; intros acc d key Hd Hk Hnone; [destruct Hd|].
  cbn [Validator_init_loop].
  destruct (Entry_init_cases i) as [(e & -> & Hall) | (k & Hin & _ & ->)].
  - cbn [bind]. destruct Hd as [-> | Hd].
    + exfalso. exact (Hall key Hk Hnone).
    + exact (IH _ d key Hd Hk Hnone).
  - cbn [bind]. eauto.
Qed.

(** C7. When a record of the batch lacks one of the nine required keys,
    building the validator raises [KeyError] for a required key, and so
    does the run as a whole: it yields no classification. *)
Theorem missing_key_aborts_batch `{Interp} (data : list pydict)
    (output_file : pystr) (d : pydict) (key : pystr) :
  In d data -> In key REQUIRED_KEYS -> d !! key = None ->
  exists k, In k REQUIRED_KEYS
            /\ Validator_init data = Raise (KeyError k)
            /\ run data output_file = Raise (KeyError k).
Proof.
  intros Hd Hk Hnone.
  destruct (Validator_init_loop_raises data [] d key Hd Hk Hnone)
    as (k & Hin & Hr).
  exists k. unfold run, Validator_init. rewrite Hr. cbn [bind]. auto.
Qed.

Lemma missing_key_aborts_batch_witness :
  exists k, In k REQUIRED_KEYS
    /\ Validator_init [sample_dict; delete (u "snils") sample_dict]
       = Raise (KeyError k)
    /\ @run cpython_3_11 [sample_dict; delete (u "snils") sample_dict]
         (u "36_result.txt") = Raise (KeyError k).
Proof.
  apply (@missing_key_aborts_batch cpython_3_11 _ _
           (delete (u "snils") sample_dict) (u "snils")).
  - right; left; reflexivity.
  - unfold REQUIRED_KEYS; cbn [In]; tauto.
  - vm_compute; reflexivity.
Defined.

(** ** The error summary *)

Lemma increment_spec (errors_count : list (pystr * nat)) (j : pystr) :
  forall errors_count',
    increment errors_count j = Ok errors_count' ->
    map fst errors_count' = map fst errors_count
    /\ list_sum (map snd errors_count')
       = S (list_sum (map snd errors_count)).
Proof.
  induction errors_count as [|[key value] t IH]; intros t' Heq;
    cbn [increment] in Heq; [discriminate|].
  destruct (pystr_eqb key j).
  - injection Heq as <-. simpl. auto.
  - destruct (increment t j) as [r|]; cbn [bind] in Heq; [|discriminate].
    injection Heq as <-. destruct (IH r eq_refl) as [Hk Hs].
    simpl. rewrite Hk, Hs. split; [reflexivity | lia].
Qed.

Lemma increment_total (errors_count : list (pystr * nat)) (j : pystr) :
  In j (map fst errors_count) ->
  exists errors_count', increment errors_count j = Ok errors_count'.
Proof.
  induction errors_count as [|[key value] t IH]; intros Hin; [destruct Hin|].
  cbn [increment]. unfold pystr_eqb. destruct (bool_decide_reflect (key = j)) as [->|Hne].
  - eauto.
  - destruct Hin as [Heq|Hin]; [simpl in Heq; contradiction|].
    destruct (IH Hin) as [r ->]. cbn [bind]. eauto.
Qed.

Lemma count_inner_spec (i : list pystr) :
  forall n errors_count,
    Forall (fun j => In j (map fst errors_count)) i ->
    exists errors_count',
      count_inner i (n, errors_count) = Ok ((n + length i)%nat, errors_count')
      /\ map fst errors_count' = map fst errors_count
      /\ list_sum (map snd errors_count')
         = (list_sum (map snd errors_count) + length i)%nat.
Proof.
  induction i as [|j i IH]; intros n t Hall.
  - exists t. simpl. rewrite !Nat.add_0_r. auto.
  - inversion Hall as [|? ? Hj Hi]; subst.
    destruct (increment_total t j Hj) as [t1 H1].
    destruct (increment_spec t j t1 H1) as [Hk1 Hs1].
    cbn [count_inner fst snd]. rewrite H1. cbn [bind].
    destruct (IH (S n) t1) as (t2 & H2 & Hk2 & Hs2).
    { rewrite Hk1. exact Hi. }
    exists t2. split; [|split].
    + rewrite H2. do 2 f_equal. simpl. lia.
    + congruence.
    + rewrite Hs2, Hs1. simpl. lia.
Qed.

Lemma count_outer_spec (result : list (list pystr)) :
  forall n errors_count,
    Forall (Forall (fun j => In j (map fst errors_count))) result ->
    exists errors_count',
      count_outer result (n, errors_count)
      = Ok ((n + length (concat result))%nat, errors_count')
      /\ map fst errors_count' = map fst errors_count
      /\ list_sum (map snd errors_count')
         = (list_sum (map snd errors_count) + length (concat result))%nat.
Proof.
  induction result as [|i result IH]; intros n t Hall.
  - exists t. simpl. rewrite !Nat.add_0_r. auto.
  - inversion Hall as [|? ? Hi Hr]; subst.
    destruct (count_inner_spec i n t Hi) as (t1 & H1 & Hk1 & Hs1).
    cbn [count_outer]. rewrite H1. cbn [bind].
    destruct (IH (n + length i)%nat t1) as (t2 & H2 & Hk2 & Hs2).
    { rewrite Hk1. exact Hr. }
    exists t2. split; [|split].
    + rewrite H2. do 2 f_equal. simpl. rewrite length_app. lia.
    + congruence.
    + rewrite Hs2, Hs1. simpl. rewrite length_app. lia.
Qed.

Lemma combine_fst_snd {A B} (l : list (A * B)) :
  combine (map fst l) (map snd l) = l.
Proof.
  induction l as [|[a b] l IH]; simpl; [reflexivity | now rewrite IH].
Qed.

Section Summary.
Context `{Interp}.

Lemma parse_entry_reason (entry : Entry) :
  parse_entry entry = []
  \/ exists name, In name SUMMARY_FIELDS /\ parse_entry entry = [name].
Proof.
  unfold parse_entry, SUMMARY_FIELDS.
  repeat match goal with
         | |- context [if negb ?b then _ else _] =>
           destruct b; cbn [negb];
             [ | right; eexists; split; [|reflexivity]; cbn [In]; tauto]
         end.
  left; reflexivity.
Qed.

Lemma parse_reasons (self : Validator) :
  Forall (fun i => exists name, In name SUMMARY_FIELDS /\ i = [name])
         (fst (parse self)).
Proof.
  unfold parse. rewrite parse_loop_spec. cbn [fst app].
  induction (entries self) as [|e l IH]; cbn [List.filter map];
    [constructor|].
  unfold is_illegal at 1, is_legal.
  destruct (parse_entry_reason e) as [He | (name & Hin & He)]; rewrite He;
    cbn [length Nat.eqb negb map]; [exact IH|].
  constructor; [|exact IH].
  exists name. split; [exact Hin | exact He].
Qed.

Lemma show_summary_table (self : Validator) (filename : pystr) :
  exists counts : list nat,
    length counts = 9%nat
    /\ show_summary (fst (parse self)) filename =
       Ok (if pystr_eqb filename []
           then Printed (summary_stdout (list_sum counts)
                           (combine SUMMARY_FIELDS counts))
           else Written filename
                  (summary_file (list_sum counts)
                     (combine SUMMARY_FIELDS counts)))
    /\ list_sum counts = length (fst (parse self)).
Proof.
  pose proof (parse_reasons self) as Hr.
  destruct (count_outer_spec (fst (parse self)) O errors_count_init)
    as (t & Hc & Hk & Hs).
  { eapply List.Forall_impl; [|exact Hr].
    intros i (name & Hin & ->). constructor; [exact Hin | constructor]. }
  assert (Hlen : length (concat (fst (parse self)))
                 = length (fst (parse self))).
  { clear Hc Hs. induction Hr as [|i l (name & _ & ->) _ IH]; simpl;
      [reflexivity | now rewrite IH]. }
  exists (map snd t). split; [|split].
  - rewrite length_map, <- (length_map fst), Hk. reflexivity.
  - unfold show_summary. rewrite Hc. cbn [bind].
    assert (Ht : combine SUMMARY_FIELDS (map snd t) = t).
    { rewrite <- (combine_fst_snd t) at 2. rewrite Hk. reflexivity. }
    rewrite Ht, Hs, Hlen.
    change (list_sum (map snd errors_count_init)) with O.
    rewrite !Nat.add_0_l.
    destruct (pystr_eqb filename []); reflexivity.
  - rewrite Hs, Hlen. reflexivity.
Qed.

Lemma uint_chars_value (d : Decimal.uint) :
  forall acc : nat,
    fold_left (fun a c => a * 10 + (c - ord "0")) (uint_chars d) (Z.of_nat acc)
    = Z.of_nat (Nat.of_uint_acc d acc).
Proof.
  induction d as [|d IH|d IH|d IH|d IH|d IH|d IH|d IH|d IH|d IH|d IH];
    intros acc; cbn [uint_chars fold_left Nat.of_uint_acc]; [reflexivity|..];
    rewrite <- IH; f_equal; rewrite Nat.tail_mul_spec;
    repeat rewrite Nat2Z.inj_succ; rewrite Nat2Z.inj_mul;
    change (Z.of_nat 10) with 10;
    match goal with
    | |- context [ord ?a - ord ?b] =>
      let v := eval vm_compute in (ord a - ord b) in
      change (ord a - ord b) with v
    end; lia.
Qed.

Lemma uint_chars_digits (d : Decimal.uint) :
  forallb Py_ISDIGIT (uint_chars d) = true.
Proof.
  induction d; cbn [uint_chars forallb]; [reflexivity|..]; rewrite IHd;
    reflexivity.
Qed.

Lemma str_of_nat_numeral (n : nat) :
  base_ten_value (str_of_nat n) = Z.of_nat n
  /\ forallb Py_ISDIGIT (str_of_nat n) = true.
Proof.
  unfold base_ten_value, str_of_nat. split; [|apply uint_chars_digits].
  change 0 with (Z.of_nat 0). rewrite uint_chars_value.
  change (Nat.of_uint_acc (Nat.to_uint n) 0) with (Nat.of_uint (Nat.to_uint n)).
  rewrite Unsigned.of_to. reflexivity.
Qed.

(** C8. For the reasons [parse] returns, [show_summary] does not raise.
    After the line of the total it writes one line for each of the nine
    fields, the name, a colon, a space and the count, in the order
    telephone, height, snils, passport_series, university,
    work_experience, academic_degree, worldview, address; the lines are
    the same on standard output and in the file.  A count is written as
    its decimal numeral, a count of zero as 0, and the nine counts add
    up to the total, which is the number of invalid records. *)
Theorem show_summary_lists_all_fields (self : Validator) (filename : pystr) :
  exists n_telephone n_height n_snils n_passport_series n_university
         n_work_experience n_academic_degree n_worldview n_address : nat,
    let total :=
      (n_telephone + n_height + n_snils + n_passport_series + n_university
       + n_work_experience + n_academic_degree + n_worldview + n_address)%nat in
    let lines :=
      u "telephone" ++ u ": " ++ str_of_nat n_telephone ++ [NEWLINE]
      ++ u "height" ++ u ": " ++ str_of_nat n_height ++ [NEWLINE]
      ++ u "snils" ++ u ": " ++ str_of_nat n_snils ++ [NEWLINE]
      ++ u "passport_series" ++ u ": " ++ str_of_nat n_passport_series
      ++ [NEWLINE]
      ++ u "university" ++ u ": " ++ str_of_nat n_university ++ [NEWLINE]
      ++ u "work_experience" ++ u ": " ++ str_of_nat n_work_experience
      ++ [NEWLINE]
      ++ u "academic_degree" ++ u ": " ++ str_of_nat n_academic_degree
      ++ [NEWLINE]
      ++ u "worldview" ++ u ": " ++ str_of_nat n_worldview ++ [NEWLINE]
      ++ u "address" ++ u ": " ++ str_of_nat n_address ++ [NEWLINE] in
    show_summary (fst (parse self)) filename =
      Ok (if pystr_eqb filename []
          then Printed ([NEWLINE] ++ u "Всего ошибок: " ++ str_of_nat total
                        ++ [NEWLINE] ++ [NEWLINE]
                        ++ u "Количество ошибок по типам: " ++ [NEWLINE]
                        ++ lines)
          else Written filename
                 (u "Всего ошибок: " ++ str_of_nat total ++ [NEWLINE]
                  ++ lines))
    /\ total = length (fst (parse self))
    /\ (forall n, base_ten_value (str_of_nat n) = Z.of_nat n
                  /\ forallb Py_ISDIGIT (str_of_nat n) = true)
    /\ str_of_nat 0 = u "0".
Proof.
  destruct (show_summary_table self filename) as (counts & Hlen & Hrun & Hsum).
  destruct counts as [|n1 [|n2 [|n3 [|n4 [|n5 [|n6 [|n7 [|n8 [|n9 [|? ?]]]]]]]]]];
    try discriminate Hlen.
  exists n1, n2, n3, n4, n5, n6, n7, n8, n9. cbn zeta.
  assert (Htotal : list_sum [n1; n2; n3; n4; n5; n6; n7; n8; n9]
                   = (n1 + n2 + n3 + n4 + n5 + n6 + n7 + n8 + n9)%nat).
  { unfold list_sum. cbn [fold_right]. lia. }
  rewrite <- Htotal. split; [|split; [exact Hsum | split]].
  - rewrite Hrun. unfold summary_stdout, summary_file, SUMMARY_FIELDS.
    cbn [combine map concat]. unfold item_line. cbn [fst snd].
    repeat rewrite <- app_assoc. rewrite app_nil_r. reflexivity.
  - exact str_of_nat_numeral.
  - reflexivity.
Qed.

End Summary.

(** ** Work experience *)

(** C5. [check_work_experience] holds exactly when [int] reads the text
    as an integer [n] with [2 <= n < 20]: "2" and "19" pass, "1" and "20"
    do not, and a text [int] refuses does not pass. *)
Theorem check_work_experience_range `{Interp} :
  (forall s, check_work_experience s = true
             <-> exists n, py_int s = Some n /\ 2 <= n < 20)
  /\ check_work_experience (u "2") = true
  /\ check_work_experience (u "19") = true
  /\ check_work_experience (u "1") = false
  /\ check_work_experience (u "20") = false
  /\ check_work_experience (u "2.5") = false
  /\ check_work_experience (u "five") = false
  /\ check_work_experience (u "") = false.
Proof.
  split; [|repeat split; vm_compute; reflexivity].
  intros s. unfold check_work_experience.
  destruct (py_int s) as [n|].
  - rewrite andb_true_iff, Z.geb_leb, Z.leb_le, Z.ltb_lt. split.
    + intros [? ?]. exists n. auto.
    + intros (m & [= <-] & ?). lia.
  - split; [discriminate | intros (m & [=] & _)].
Qed.

(** ** The checks that use [re]: a newline at the end *)

(** C3. The text "12345678901" followed by a newline has twelve
    characters, the last of which is no digit, and [check_snils] accepts
    it. *)
Theorem check_snils_accepts_trailing_newline :
  check_snils (u "12345678901" ++ [NEWLINE]) = true
  /\ length (u "12345678901" ++ [NEWLINE]) = 12%nat
  /\ Py_UNICODE_ISDECIMAL NEWLINE = false
  /\ check_snils (u "12345678901") = true.
Proof. repeat split; vm_compute; reflexivity. Qed.

(** C6. The text "+7-(123)-456-78-90" followed by a newline is not of
    the form +7-(DDD)-DDD-DD-DD, and [check_telephone] accepts it. *)
Theorem check_telephone_accepts_trailing_newline :
  check_telephone (u "+7-(123)-456-78-90" ++ [NEWLINE]) = true
  /\ length (u "+7-(123)-456-78-90" ++ [NEWLINE]) = 19%nat
  /\ length (u "+7-(123)-456-78-90") = 18%nat
  /\ check_telephone (u "+7-(123)-456-78-90") = true.
Proof. repeat split; vm_compute; reflexivity. Qed.

(** ** The matcher *)

Lemma match_op_SUBPATTERN (group : nat) (body : list op) (st : state) :
  match_op (SUBPATTERN group body) st = match_seq body [st].
Proof. reflexivity. Qed.

Lemma match_op_MAX_REPEAT (lo : nat) (hi : option nat) (body : list op)
    (st : state) :
  match_op (MAX_REPEAT lo hi body) st =
  iter_upto (fun s => match_seq body [s])
    (match hi with Some h => (h - lo)%nat | None => length (snd st) end)
    (iter_exact (fun s => match_seq body [s]) lo [st]).
Proof. reflexivity. Qed.

Lemma match_seq_app (p q : list op) :
  forall sts, match_seq (p ++ q) sts = match_seq q (match_seq p sts).
Proof.
  induction p as [|o p IH]; intros sts; [reflexivity|].
  cbn [app match_seq]. apply IH.
Qed.

Lemma in_match_seq (p : list op) :
  forall sts st',
    In st' (match_seq p sts) <->
    exists st, In st sts /\ In st' (match_seq p [st]).
Proof.
  induction p as [|o p IH]; intros sts st'; cbn [match_seq].
  - split.
    + intros Hin. exists st'. split; [exact Hin | left; reflexivity].
    + intros (st & Hin & [-> | []]). exact Hin.
  - rewrite IH. split.
    + intros (st1 & H1 & H2). apply in_flat_map in H1 as (st & Hst & H1).
      exists st. split; [exact Hst|]. apply IH. exists st1. split; [|exact H2].
      cbn [flat_map]. rewrite app_nil_r. exact H1.
    + intros (st & Hst & H2). apply IH in H2 as (st1 & H1 & H2).
      cbn [flat_map] in H1. rewrite app_nil_r in H1.
      exists st1. split; [|exact H2]. apply in_flat_map. eauto.
Qed.

Lemma in_iter_exact_S (step : state -> list state) (n : nat) :
  forall sts st',
    In st' (iter_exact step (S n) sts) <->
    exists st1, In st1 (flat_map step sts) /\ In st' (iter_exact step n [st1]).
Proof.
  induction n as [|n IH]; intros sts st'.
  - cbn [iter_exact]. split.
    + intros Hin. exists st'. split; [exact Hin | left; reflexivity].
    + intros (st1 & Hin & [-> | []]). exact Hin.
  - change (iter_exact step (S (S n)) sts)
      with (iter_exact step (S n) (flat_map step sts)).
    rewrite IH. split.
    + intros (st2 & H2 & H3). apply in_flat_map in H2 as (st1 & H1 & H2).
      exists st1. split; [exact H1|]. apply IH. exists st2. split; [|exact H3].
      cbn [flat_map]. rewrite app_nil_r. exact H2.
    + intros (st1 & H1 & H3). apply IH in H3 as (st2 & H2 & H3).
      cbn [flat_map] in H2. rewrite app_nil_r in H2.
      exists st2. split; [|exact H3]. apply in_flat_map. eauto.
Qed.

Lemma in_iter_upto (step : state -> list state) (n : nat) :
  forall sts st',
    In st' (iter_upto step n sts) <->
    exists j, (j <= n)%nat /\ In st' (iter_exact step j sts).
Proof.
  induction n as [|n IH]; intros sts st'; cbn [iter_upto].
  - split.
    + intros Hin. exists O. split; [lia | exact Hin].
    + intros (j & Hj & Hin). assert (j = O) as -> by lia. exact Hin.
  - rewrite in_app_iff, IH. split.
    + intros [Hin | (j & Hj & Hin)].
      * exists O. split; [lia | exact Hin].
      * exists (S j). split; [lia | exact Hin].
    + intros (j & Hj & Hin). destruct j as [|j].
      * left. exact Hin.
      * right. exists j. split; [lia | exact Hin].
Qed.

Lemma iter_exact_add (step : state -> list state) (n m : nat) :
  forall sts,
    iter_exact step m (iter_exact step n sts) = iter_exact step (n + m) sts.
Proof.
  induction n as [|n IH]; intros sts; [reflexivity|].
  cbn [iter_exact Nat.add]. apply IH.
Qed.

Lemma iter_exact_ext (f g : state -> list state) :
  (forall st, f st = g st) ->
  forall n sts, iter_exact f n sts = iter_exact g n sts.
Proof.
  intros Hfg n. induction n as [|n IH]; intros sts; [reflexivity|].
  cbn [iter_exact]. rewrite IH. f_equal. apply flat_map_ext. exact Hfg.
Qed.

Lemma iter_upto_ext (f g : state -> list state) :
  (forall st, f st = g st) ->
  forall n sts, iter_upto f n sts = iter_upto g n sts.
Proof.
  intros Hfg n. induction n as [|n IH]; intros sts; [reflexivity|].
  cbn [iter_upto]. rewrite IH. do 2 f_equal. apply flat_map_ext. exact Hfg.
Qed.

Lemma in_match_seq_cons (o : op) (p : list op) (st st' : state) :
  In st' (match_seq (o :: p) [st]) <->
  exists st1, In st1 (match_op o st) /\ In st' (match_seq p [st1]).
Proof.
  cbn [match_seq flat_map]. rewrite app_nil_r. apply in_match_seq.
Qed.

Lemma truthy_re_match (pattern : list op) (s : pystr) :
  truthy (re_match pattern s) = true <->
  exists st', In st' (match_seq pattern [(O, s)]).
Proof.
  unfold re_match. destruct (match_seq pattern [(O, s)]) as [|st l]; cbn.
  - split; [discriminate | intros [st' []]].
  - split; [eauto | reflexivity].
Qed.

Lemma in_match_AT_END (st st' : state) :
  In st' (match_op (AT AT_END) st) <->
  st' = st /\ (snd st = [] \/ snd st = [NEWLINE]).
Proof.
  cbn [match_op at_match]. destruct (snd st) as [|c [|c' r]].
  - split; [intros [<- | []]; auto | intros [-> _]; left; reflexivity].
  - destruct (Z.eqb_spec c NEWLINE) as [-> | Hne].
    + split; [intros [<- | []]; auto | intros [-> _]; left; reflexivity].
    + split; [intros [] | intros [_ [[=] | [= Hc]]]; contradiction].
  - split; [intros [] | intros [_ [[=] | [=]]]].
Qed.

Lemma in_match_AT_BEGINNING (s : pystr) (st' : state) :
  In st' (match_op (AT AT_BEGINNING) (O, s)) <-> st' = (O, s).
Proof.
  cbn. split; [intros [<- | []]; reflexivity | intros ->; left; reflexivity].
Qed.

(** *** Runs of one character class *)

Lemma in_one_char (p : Z -> bool) (st st' : state) :
  In st' (one_char p st) <->
  exists c, p c = true /\ snd st = c :: snd st' /\ fst st' = S (fst st).
Proof.
  unfold one_char. destruct st as [i r], st' as [i' r']. cbn [fst snd].
  destruct r as [|c r].
  - split; [intros [] | intros (c & _ & [=] & _)].
  - destruct (p c) eqn:Hp.
    + split.
      * intros [[= <- <-] | []]. exists c. auto.
      * intros (c0 & _ & [= <- <-] & ->). left. reflexivity.
    + split; [intros [] | intros (c0 & Hc & [= <- <-] & _); congruence].
Qed.

Lemma in_iter_exact_class (p : Z -> bool) (n : nat) :
  forall st st',
    In st' (iter_exact (one_char p) n [st]) <->
    exists c, length c = n /\ forallb p c = true
              /\ snd st = c ++ snd st' /\ fst st' = (fst st + n)%nat.
Proof.
  induction n as [|n IH]; intros st st'.
  - cbn [iter_exact]. split.
    + intros [<- | []]. exists []. cbn. auto with arith.
    + intros (c & Hlen & _ & Hs & Hi). destruct c; [|discriminate].
      left. destruct st, st'. cbn in *. subst. f_equal. lia.
  - rewrite in_iter_exact_S. cbn [flat_map]. rewrite app_nil_r. split.
    + intros (st1 & H1 & H2). apply in_one_char in H1 as (c & Hc & Hs & Hi).
      apply IH in H2 as (cs & Hlen & Hall & Hs' & Hi').
      exists (c :: cs). cbn [length forallb app]. rewrite Hc, Hall, Hs, Hs'.
      repeat split; [congruence | lia].
    + intros (c & Hlen & Hall & Hs & Hi). destruct c as [|c cs]; [discriminate|].
      cbn [forallb] in Hall. apply andb_true_iff in Hall as [Hc Hall].
      exists (S (fst st), cs ++ snd st'). split.
      * apply in_one_char. exists c. cbn [fst snd]. auto.
      * apply IH. exists cs. cbn [fst snd]. cbn [length] in Hlen.
        repeat split; [lia | assumption | lia].
Qed.

Lemma match_seq_single_IN (items : list set_item) (st : state) :
  match_seq [IN items] [st] = one_char (in_set items) st.
Proof. cbn [match_seq flat_map match_op]. apply app_nil_r. Qed.

(** A class repeated one or more times reads any non-empty run of
    characters of the class. *)
Lemma in_match_class_plus (items : list set_item) (st st' : state) :
  In st' (match_op (MAX_REPEAT 1 None [IN items]) st) <->
  exists c, c <> [] /\ forallb (in_set items) c = true
            /\ snd st = c ++ snd st'
            /\ fst st' = (fst st + length c)%nat.
Proof.
  rewrite match_op_MAX_REPEAT.
  rewrite (iter_upto_ext _ _ (match_seq_single_IN items)).
  rewrite (iter_exact_ext _ _ (match_seq_single_IN items)).
  rewrite in_iter_upto. split.
  - intros (j & _ & Hin). rewrite iter_exact_add in Hin.
    apply in_iter_exact_class in Hin as (c & Hlen & Hall & Hs & Hi).
    exists c. rewrite Hlen. repeat split; try assumption.
    intros ->. discriminate.
  - intros (c & Hne & Hall & Hs & Hi).
    destruct c as [|c0 cs]; [contradiction|].
    exists (length cs). split.
    + rewrite Hs, length_app. cbn [length]. lia.
    + rewrite iter_exact_add. apply in_iter_exact_class.
      exists (c0 :: cs). cbn [length] in *. auto.
Qed.

(** A pattern [^[class]+$]: a non-empty run of the class, then the end
    of the text or one newline that ends it. *)
Lemma class_plus_end_spec (items : list set_item) (s : pystr) :
  truthy (re_match [AT AT_BEGINNING; MAX_REPEAT 1 None [IN items]; AT AT_END]
                   s) = true <->
  exists c, c <> [] /\ forallb (in_set items) c = true
            /\ (s = c \/ s = c ++ [NEWLINE]).
Proof.
  rewrite truthy_re_match. split.
  - intros (st' & Hin).
    apply in_match_seq_cons in Hin as (st1 & H1 & Hin).
    apply in_match_AT_BEGINNING in H1 as ->.
    apply in_match_seq_cons in Hin as (st2 & H2 & Hin).
    apply in_match_class_plus in H2 as (c & Hne & Hall & Hs & _).
    apply in_match_seq_cons in Hin as (st3 & H3 & _).
    apply in_match_AT_END in H3 as [_ Hend].
    exists c. cbn [snd] in Hs. repeat split; try assumption.
    destruct Hend as [He | He]; rewrite He in Hs;
      [left; now rewrite app_nil_r in Hs | right; exact Hs].
  - intros (c & Hne & Hall & Hs).
    assert (Hex : exists r, s = c ++ r /\ (r = [] \/ r = [NEWLINE])).
    { destruct Hs as [-> | ->]; [exists []; rewrite app_nil_r | eexists]; eauto. }
    destruct Hex as (r & -> & Hr).
    exists (length c, r).
    apply in_match_seq_cons. exists (O, c ++ r). split.
    { apply in_match_AT_BEGINNING. reflexivity. }
    apply in_match_seq_cons. exists (length c, r). split.
    { apply in_match_class_plus. exists c. cbn [fst snd]. auto. }
    apply in_match_seq_cons. exists (length c, r). split.
    { apply in_match_AT_END. auto. }
    left. reflexivity.
Qed.

(** ** Academic degree and worldview *)

Lemma in_set_degree_class (c : Z) :
  in_set degree_class c
  = latin_letter c || in_cyrillic_ranges c || (c =? ord "-") || is_space c.
Proof.
  unfold in_set, degree_class, latin_letter, in_cyrillic_ranges, is_space.
  cbn [existsb item_match].
  repeat match goal with
         | |- context [Z.leb ?a ?b] => destruct (Z.leb a b)
         | |- context [Z.eqb ?a ?b] => destruct (Z.eqb a b)
         end; reflexivity.
Qed.

Lemma ends_with_newline_app (c : pystr) :
  ends_with_newline (c ++ [NEWLINE]) = true.
Proof. unfold ends_with_newline. rewrite rev_app_distr. reflexivity. Qed.

Lemma check_degree_spec (s : pystr) :
  check_degree s = true <->
  exists c, c <> [] /\ forallb (in_set degree_class) c = true
            /\ (s = c \/ s = c ++ [NEWLINE]).
Proof.
  unfold check_degree, degree_pattern. rewrite <- class_plus_end_spec.
  destruct (truthy _); tauto.
Qed.

Lemma letters_without_io (whitespace : Z -> bool) (s : pystr) :
  existsb is_io s = false ->
  forallb (fun c => latin_letter c || cyrillic_letter c
                    || (c =? ord "-") || whitespace c) s
  = forallb (fun c => latin_letter c || in_cyrillic_ranges c
                      || (c =? ord "-") || whitespace c) s.
Proof.
  induction s as [|c s IH]; [reflexivity|].
  cbn [existsb forallb]. rewrite orb_false_iff. intros [Hc Hs].
  rewrite (IH Hs). unfold cyrillic_letter. rewrite Hc, orb_false_r.
  reflexivity.
Qed.

(** C9, as amended. [check_worldview] and [check_degree] agree on every
    string; a string that does not end in a newline and has no letter
    io in it is accepted exactly when it is one or more characters from
    the Latin letters, the letters of the Russian alphabet, hyphen and
    the space character. *)
Theorem check_worldview_same_as_check_degree :
  (forall s, check_worldview s = check_degree s)
  /\ (forall s, ends_with_newline s = false ->
        existsb is_io s = false ->
        (check_degree s = true
         <-> letters_hyphen_whitespace is_space s = true)).
Proof.
  split; [reflexivity|].
  intros s Hnl Hio. rewrite check_degree_spec. unfold letters_hyphen_whitespace.
  rewrite andb_true_iff, negb_true_iff, Nat.eqb_neq.
  rewrite (letters_without_io is_space s Hio).
  assert (Hall : forall c, forallb (in_set degree_class) c
    = forallb (fun c => latin_letter c || in_cyrillic_ranges c
                         || (c =? ord "-") || is_space c) c).
  { intros c. induction c as [|x c IH]; [reflexivity|].
    cbn [forallb]. rewrite IH, in_set_degree_class. reflexivity. }
  split.
  - intros (c & Hne & Hc & [-> | ->]).
    + rewrite <- Hall. split; [|exact Hc].
      destruct c; [contradiction | discriminate].
    + rewrite ends_with_newline_app in Hnl. discriminate.
  - intros [Hlen Hc]. exists s. rewrite Hall.
    repeat split; [intros ->; apply Hlen; reflexivity | exact Hc | auto].
Qed.

Lemma check_worldview_same_as_check_degree_witness :
  ends_with_newline (u "кандидат наук") = false
  /\ existsb is_io (u "кандидат наук") = false
  /\ (check_degree (u "кандидат наук") = true
      <-> letters_hyphen_whitespace is_space (u "кандидат наук") = true).
Proof.
  split; [reflexivity|]. split; [reflexivity|].
  apply check_worldview_same_as_check_degree; reflexivity.
Defined.

(** C9 as stated fails.  With "whitespace" read as the class [\s], the
    text a, tab, b is made of Latin letters and whitespace and is
    refused; with "whitespace" read as the space character, the text a,
    newline is accepted although the newline is not in the set; and
    under either reading the word for scholar, whose third letter is
    io, is made of Cyrillic letters and is refused. *)
Lemma check_degree_not_letters_hyphen_whitespace :
  (letters_hyphen_whitespace Py_UNICODE_ISSPACE (u "a" ++ [9] ++ u "b") = true
   /\ check_degree (u "a" ++ [9] ++ u "b") = false)
  /\ (letters_hyphen_whitespace is_space (u "a" ++ [NEWLINE]) = false
      /\ check_degree (u "a" ++ [NEWLINE]) = true)
  /\ (letters_hyphen_whitespace is_space (u "Учёный") = true
      /\ letters_hyphen_whitespace Py_UNICODE_ISSPACE (u "Учёный") = true
      /\ check_degree (u "Учёный") = false).
Proof. repeat split; vm_compute; reflexivity. Qed.

(** ** Patterns that end in [$] *)

Section OpInduction.
Variable P : op -> Prop.
Hypothesis P_AT : forall a, P (AT a).
Hypothesis P_LITERAL : forall c, P (LITERAL c).
Hypothesis P_IN : forall items, P (IN items).
Hypothesis P_MAX_REPEAT :
  forall lo hi body, Forall P body -> P (MAX_REPEAT lo hi body).
Hypothesis P_SUBPATTERN :
  forall group body, Forall P body -> P (SUBPATTERN group body).

Fixpoint op_ind_nested (o : op) : P o :=
  match o with
  | AT a => P_AT a
  | LITERAL c => P_LITERAL c
  | IN items => P_IN items
  | MAX_REPEAT lo hi body =>
    P_MAX_REPEAT lo hi body
      ((fix all (l : list op) : Forall P l :=
          match l with
          | [] => @List.Forall_nil op P
          | x :: l' => @List.Forall_cons op P x l' (op_ind_nested x) (all l')
          end) body)
  | SUBPATTERN group body =>
    P_SUBPATTERN group body
      ((fix all (l : list op) : Forall P l :=
          match l with
          | [] => @List.Forall_nil op P
          | x :: l' => @List.Forall_cons op P x l' (op_ind_nested x) (all l')
          end) body)
  end.

End OpInduction.

Lemma extends_flat_map (f : state -> list state) :
  extends f ->
  forall t sts st',
    In st' (flat_map f sts) ->
    In (extend t st') (flat_map f (map (extend t) sts)).
Proof.
  intros Hf t sts st' Hin. apply in_flat_map in Hin as (st & Hst & Hin).
  apply in_flat_map. exists (extend t st). split.
  - apply in_map. exact Hst.
  - apply Hf. exact Hin.
Qed.

Lemma flat_map_incl (f : state -> list state) (sts sts' : list state) :
  incl sts sts' -> incl (flat_map f sts) (flat_map f sts').
Proof.
  intros Hi x Hx. apply in_flat_map in Hx as (y & Hy & Hx).
  apply in_flat_map. exists y. split; [apply Hi; exact Hy | exact Hx].
Qed.

Lemma iter_exact_incl (f : state -> list state) (n : nat) :
  forall sts sts',
    incl sts sts' -> incl (iter_exact f n sts) (iter_exact f n sts').
Proof.
  induction n as [|n IH]; intros sts sts' Hi; [exact Hi|].
  cbn [iter_exact]. apply IH, flat_map_incl, Hi.
Qed.

Lemma match_seq_incl (p : list op) :
  forall sts sts',
    incl sts sts' -> incl (match_seq p sts) (match_seq p sts').
Proof.
  induction p as [|o p IH]; intros sts sts' Hi; [exact Hi|].
  cbn [match_seq]. apply IH, flat_map_incl, Hi.
Qed.

Lemma extends_iter_exact (f : state -> list state) :
  extends f ->
  forall t n sts st',
    In st' (iter_exact f n sts) ->
    In (extend t st') (iter_exact f n (map (extend t) sts)).
Proof.
  intros Hf t n. induction n as [|n IH]; intros sts st' Hin.
  - cbn [iter_exact] in *. apply in_map. exact Hin.
  - cbn [iter_exact] in *. apply IH in Hin.
    revert Hin. apply iter_exact_incl.
    intros x Hx. apply in_map_iff in Hx as (y & <- & Hy).
    apply extends_flat_map; assumption.
Qed.

Lemma extends_match_seq (p : list op) :
  Forall (fun o => extends (match_op o)) p ->
  forall t sts st',
    In st' (match_seq p sts) ->
    In (extend t st') (match_seq p (map (extend t) sts)).
Proof.
  intros Hall t. induction Hall as [|o p Ho _ IH]; intros sts st' Hin.
  - cbn [match_seq] in *. apply in_map. exact Hin.
  - cbn [match_seq] in *. apply IH in Hin.
    revert Hin. apply match_seq_incl.
    intros x Hx. apply in_map_iff in Hx as (y & <- & Hy).
    apply extends_flat_map; assumption.
Qed.

Lemma extends_one_char (p : Z -> bool) : extends (one_char p).
Proof.
  intros t st st' Hin. apply in_one_char in Hin as (c & Hc & Hs & Hi).
  apply in_one_char. exists c. unfold extend. cbn [fst snd].
  rewrite Hs. auto.
Qed.

(** Where [$] does not occur, what the pattern reads does not depend on
    the text that follows. *)
Lemma end_free_extends (o : op) :
  end_free o = true -> extends (match_op o).
Proof.
  induction o as [a | c | items | lo hi body IH | group body IH]
    using op_ind_nested; intros Hfree.
  - destruct a; [|discriminate].
    intros t st st' Hin. cbn [match_op at_match] in *.
    unfold extend at 2. cbn [fst].
    destruct (Nat.eqb (fst st) 0); [|destruct Hin].
    destruct Hin as [<- | []]. left. reflexivity.
  - apply extends_one_char.
  - apply extends_one_char.
  - assert (Hbody : Forall (fun o => extends (match_op o)) body).
    { cbn [end_free] in Hfree. rewrite forallb_forall in Hfree.
      rewrite List.Forall_forall in *. auto. }
    assert (Hstep : extends (fun s => match_seq body [s])).
    { intros t st st' Hin.
      apply (extends_match_seq body Hbody t [st]). exact Hin. }
    intros t st st' Hin. rewrite match_op_MAX_REPEAT in *.
    apply in_iter_upto in Hin as (j & Hj & Hin).
    rewrite iter_exact_add in Hin.
    apply in_iter_upto. exists j. split.
    + destruct hi; [exact Hj|]. unfold extend. cbn [snd].
      rewrite length_app. lia.
    + rewrite iter_exact_add.
      apply (extends_iter_exact _ Hstep t _ [st]). exact Hin.
  - assert (Hbody : Forall (fun o => extends (match_op o)) body).
    { cbn [end_free] in Hfree. rewrite forallb_forall in Hfree.
      rewrite List.Forall_forall in *. auto. }
    intros t st st' Hin. rewrite match_op_SUBPATTERN in *.
    apply (extends_match_seq body Hbody t [st]). exact Hin.
Qed.

Lemma consumes_iter_exact (f : state -> list state) :
  consumes f ->
  forall n sts st',
    In st' (iter_exact f n sts) ->
    exists st c, In st sts /\ snd st = c ++ snd st'.
Proof.
  intros Hf n. induction n as [|n IH]; intros sts st' Hin.
  - exists st', []. split; [exact Hin | reflexivity].
  - cbn [iter_exact] in Hin. apply IH in Hin as (st1 & c1 & Hin & Hs1).
    apply in_flat_map in Hin as (st & Hst & Hin).
    apply Hf in Hin as (c & Hs). exists st, (c ++ c1).
    split; [exact Hst|]. rewrite Hs, Hs1. apply app_assoc.
Qed.

Lemma consumes_match_seq (p : list op) :
  Forall (fun o => consumes (match_op o)) p ->
  forall sts st',
    In st' (match_seq p sts) ->
    exists st c, In st sts /\ snd st = c ++ snd st'.
Proof.
  intros Hall. induction Hall as [|o p Ho _ IH]; intros sts st' Hin.
  - exists st', []. split; [exact Hin | reflexivity].
  - cbn [match_seq] in Hin. apply IH in Hin as (st1 & c1 & Hin & Hs1).
    apply in_flat_map in Hin as (st & Hst & Hin).
    apply Ho in Hin as (c & Hs). exists st, (c ++ c1).
    split; [exact Hst|]. rewrite Hs, Hs1. apply app_assoc.
Qed.

(** What is left to read after a pattern is a suffix of what was left
    before it. *)
Lemma match_op_consumes (o : op) : consumes (match_op o).
Proof.
  induction o as [a | c | items | lo hi body IH | group body IH]
    using op_ind_nested.
  - intros st st' Hin. cbn [match_op] in Hin.
    destruct (at_match a st); [|destruct Hin].
    destruct Hin as [<- | []]. exists []. reflexivity.
  - intros st st' Hin. apply in_one_char in Hin as (x & _ & Hs & _).
    exists [x]. exact Hs.
  - intros st st' Hin. apply in_one_char in Hin as (x & _ & Hs & _).
    exists [x]. exact Hs.
  - assert (Hstep : consumes (fun s => match_seq body [s])).
    { intros st st' Hin.
      apply (consumes_match_seq body IH) in Hin as (st0 & c & [<- | []] & Hs).
      eauto. }
    intros st st' Hin. rewrite match_op_MAX_REPEAT in Hin.
    apply in_iter_upto in Hin as (j & _ & Hin).
    rewrite iter_exact_add in Hin.
    apply (consumes_iter_exact _ Hstep) in Hin as (st0 & c & [<- | []] & Hs).
    eauto.
  - intros st st' Hin. rewrite match_op_SUBPATTERN in Hin.
    apply (consumes_match_seq body IH) in Hin as (st0 & c & [<- | []] & Hs).
    eauto.
Qed.

Lemma ends_with_newline_suffix (c : pystr) :
  ends_with_newline (c ++ [NEWLINE]) = false -> False.
Proof. rewrite ends_with_newline_app. discriminate. Qed.

(** A pattern [body $] that matches a text without a newline at its end
    also matches the text followed by a newline. *)
Lemma dollar_accepts_newline (body : list op) (s : pystr) :
  forallb end_free body = true ->
  ends_with_newline s = false ->
  truthy (re_match (body ++ [AT AT_END]) s) = true ->
  truthy (re_match (body ++ [AT AT_END]) (s ++ [NEWLINE])) = true.
Proof.
  intros Hfree Hnl. rewrite !truthy_re_match, !match_seq_app.
  intros (st' & Hin). cbn [match_seq] in *.
  apply in_flat_map in Hin as (st & Hst & Hend).
  apply in_match_AT_END in Hend as [_ Hend].
  assert (Hcons : Forall (fun o => consumes (match_op o)) body).
  { apply List.Forall_forall. intros o _. apply match_op_consumes. }
  destruct (consumes_match_seq body Hcons _ _ Hst)
    as (st0 & c & [<- | []] & Hs).
  cbn [snd] in Hs. destruct Hend as [He | He]; rewrite He in Hs.
  - assert (Hext : Forall (fun o => extends (match_op o)) body).
    { rewrite forallb_forall in Hfree. apply List.Forall_forall.
      intros o Ho. apply end_free_extends, Hfree, Ho. }
    pose proof (extends_match_seq body Hext [NEWLINE] [(O, s)] st Hst) as Hx.
    exists (extend [NEWLINE] st). apply in_flat_map.
    exists (extend [NEWLINE] st). split; [exact Hx|].
    apply in_match_AT_END. split; [reflexivity|].
    right. unfold extend. cbn [snd]. rewrite He. reflexivity.
  - subst s. exfalso. exact (ends_with_newline_suffix c Hnl).
Qed.

Lemma check_university_spec (s : pystr) :
  check_university s = true <->
  exists c, c <> []
            /\ forallb (in_set [RANGE cyr_a cyr_ya; RANGE cyr_A cyr_YA;
                                IN_LITERAL (ord "-");
                                CATEGORY CATEGORY_SPACE;
                                IN_LITERAL (ord ".")]) c = true
            /\ (s = c \/ s = c ++ [NEWLINE]).
Proof.
  unfold check_university, university_pattern.
  rewrite <- class_plus_end_spec. destruct (truthy _); tauto.
Qed.

(** C10, as amended. Each of the seven checks that use [re] accepts
    [s] followed by a newline whenever it accepts [s] and [s] does not
    itself end in a newline; [check_university] does so for every [s]
    it accepts. *)
Theorem regex_checks_accept_trailing_newline :
  (forall v s, In v regex_checks ->
     ends_with_newline s = false ->
     v s = true -> v (s ++ [NEWLINE]) = true)
  /\ (forall s, check_university s = true ->
        check_university (s ++ [NEWLINE]) = true).
Proof.
  split.
  - intros v s Hv Hnl Hs.
    assert (Hgen : forall body,
      forallb end_free body = true ->
      (if truthy (re_match (body ++ [AT AT_END]) s) then true else false)
        = true ->
      (if truthy (re_match (body ++ [AT AT_END]) (s ++ [NEWLINE]))
       then true else false) = true).
    { intros body Hfree Hm.
      rewrite (dollar_accepts_newline body s Hfree Hnl); [reflexivity|].
      destruct (truthy (re_match (body ++ [AT AT_END]) s));
        [reflexivity | discriminate]. }
    unfold regex_checks in Hv. cbn [In] in Hv.
    destruct Hv as [<- | [<- | [<- | [<- | [<- | [<- | [<- | []]]]]]]].
    + exact (Hgen (removelast telephone_pattern) eq_refl Hs).
    + exact (Hgen (removelast snils_pattern) eq_refl Hs).
    + exact (Hgen (removelast passport_pattern) eq_refl Hs).
    + exact (Hgen (removelast address_pattern) eq_refl Hs).
    + exact (Hgen (removelast university_pattern) eq_refl Hs).
    + exact (Hgen (removelast degree_pattern) eq_refl Hs).
    + exact (Hgen (removelast worldview_pattern) eq_refl Hs).
  - intros s Hs. apply check_university_spec in Hs as (c & Hne & Hc & Hs).
    apply check_university_spec. destruct Hs as [-> | ->].
    + exists c. auto.
    + exists (c ++ [NEWLINE]). repeat split.
      * intros Hnil. apply app_eq_nil in Hnil as [_ [=]].
      * rewrite forallb_app, Hc. reflexivity.
      * right. reflexivity.
Qed.

Lemma regex_checks_accept_trailing_newline_witness :
  In check_snils regex_checks
  /\ ends_with_newline (u "12345678901") = false
  /\ check_snils (u "12345678901") = true
  /\ check_snils (u "12345678901" ++ [NEWLINE]) = true.
Proof.
  assert (Hin : In check_snils regex_checks) by (right; left; reflexivity).
  assert (Hnl : ends_with_newline (u "12345678901") = false) by reflexivity.
  assert (Hs : check_snils (u "12345678901") = true)
    by (vm_compute; reflexivity).
  split; [exact Hin|]. split; [exact Hnl|]. split; [exact Hs|].
  exact (proj1 regex_checks_accept_trailing_newline check_snils
           (u "12345678901") Hin Hnl Hs).
Defined.

(** C10 as stated fails where the accepted text already ends in a
    newline: eleven digits and a newline are accepted by [check_snils],
    eleven digits and two newlines are not. *)
Lemma check_snils_rejects_second_newline :
  In check_snils regex_checks
  /\ check_snils (u "12345678901" ++ [NEWLINE]) = true
  /\ check_snils ((u "12345678901" ++ [NEWLINE]) ++ [NEWLINE]) = false.
Proof.
  split; [right; left; reflexivity|].
  split; vm_compute; reflexivity.
Qed.

(** ** Rounding to binary64 *)

Section Binary64.
Local Open Scope Q_scope.

Lemma pow2_pos (e : Z) : 0 < pow2 e.
Proof. apply Qpower_0_lt. reflexivity. Qed.

Lemma pow2_add (a b : Z) : pow2 (a + b) == pow2 a * pow2 b.
Proof. apply Qpower_plus. discriminate. Qed.

Lemma pow2_le (a b : Z) : (a <= b)%Z -> pow2 a <= pow2 b.
Proof. intros H. apply Qpower_le_compat_l; [exact H | discriminate]. Qed.

Lemma pow2_lt (a b : Z) : (a < b)%Z -> pow2 a < pow2 b.
Proof. intros H. apply Qpower_lt_compat_l; [exact H | reflexivity]. Qed.

Lemma pow2_inject (k : Z) : (0 <= k)%Z -> inject_Z (2 ^ k) == pow2 k.
Proof. intros H. apply (Zpower_Qpower 2 k H). Qed.

Lemma pow2_split (a b : Z) : pow2 a == pow2 (a - b) * pow2 b.
Proof. rewrite <- pow2_add. replace (a - b + b)%Z with a by ring. reflexivity. Qed.

(** [ilog2] is the binary exponent of a positive rational. *)
Lemma ilog2_spec (x : Q) :
  0 < x -> pow2 (ilog2 x) <= x /\ x < pow2 (ilog2 x + 1).
Proof.
  intros Hx. destruct x as [n d].
  assert (Hn : (0 < n)%Z).
  { unfold Qlt in Hx. cbn in Hx. lia. }
  unfold ilog2. cbn [Qnum Qden].
  set (a := Z.log2 n). set (b := Z.log2 (Zpos d)).
  assert (Ha : (0 <= a)%Z) by apply Z.log2_nonneg.
  assert (Hb : (0 <= b)%Z) by apply Z.log2_nonneg.
  destruct (Z.log2_spec n Hn) as [Ha1 Ha2]. fold a in Ha1, Ha2.
  destruct (Z.log2_spec (Zpos d) eq_refl) as [Hb1 Hb2]. fold b in Hb1, Hb2.
  rewrite Zle_Qle, pow2_inject in Ha1, Hb1 by assumption.
  rewrite Zlt_Qlt in Ha2, Hb2.
  rewrite <- Z.add_1_r, pow2_inject in Ha2, Hb2 by lia.
  assert (Hd : 0 < inject_Z (Zpos d)) by reflexivity.
  assert (Hxd : (n # d) * inject_Z (Zpos d) == inject_Z n).
  { unfold Qeq. cbn. lia. }
  assert (Hup : n # d < pow2 (a - b + 1)).
  { apply (Qmult_lt_r _ _ (inject_Z (Zpos d)) Hd). rewrite Hxd.
    apply Qlt_le_trans with (pow2 (a + 1)); [exact Ha2|].
    rewrite (pow2_split (a + 1) b).
    replace (a + 1 - b)%Z with (a - b + 1)%Z by ring.
    apply Qmult_le_l; [apply pow2_pos | exact Hb1]. }
  assert (Hlow : pow2 (a - b - 1) <= n # d).
  { apply (Qmult_le_r _ _ (inject_Z (Zpos d)) Hd). rewrite Hxd.
    apply Qle_trans with (pow2 a); [|exact Ha1].
    rewrite (pow2_split a (b + 1)).
    replace (a - (b + 1))%Z with (a - b - 1)%Z by ring.
    apply Qmult_le_l; [apply pow2_pos | apply Qlt_le_weak; exact Hb2]. }
  destruct (Qle_bool (pow2 (a - b)) (n # d)) eqn:Hc.
  - apply Qle_bool_iff in Hc. split; [exact Hc | exact Hup].
  - split; [exact Hlow|].
    replace (a - b - 1 + 1)%Z with (a - b)%Z by ring.
    apply Qnot_le_lt. intros Hle. apply Qle_bool_iff in Hle. congruence.
Qed.

(** *** The nearest integer *)

Lemma half_cases (x : Q) :
  let f := Qfloor x in
  inject_Z f <= x /\ x < inject_Z f + 1.
Proof.
  cbn. split; [apply Qfloor_le|].
  pose proof (Qlt_floor x) as H. rewrite inject_Z_plus in H. exact H.
Qed.

Lemma round_half_even_below (x : Q) (k : Z) :
  x < inject_Z k + (1 # 2) -> (round_half_even x <= k)%Z.
Proof.
  intros Hx. destruct (half_cases x) as [Hf1 Hf2]. unfold round_half_even.
  set (f := Qfloor x) in *.
  assert (Hfk : (f <= k)%Z).
  { apply Z.lt_succ_r. rewrite Zlt_Qlt, <- Z.add_1_r, inject_Z_plus.
    change (inject_Z 1) with 1. lra. }
  destruct (Qcompare_spec (x - inject_Z f) (1 # 2)) as [He | Hl | Hg].
  - destruct (Z.even f); [exact Hfk|].
    destruct (Z.eq_dec f k) as [-> | Hne]; [lra | lia].
  - exact Hfk.
  - destruct (Z.eq_dec f k) as [-> | Hne]; [lra | lia].
Qed.

Lemma round_half_even_above (x : Q) (k : Z) :
  inject_Z k + (1 # 2) < x -> (k + 1 <= round_half_even x)%Z.
Proof.
  intros Hx. destruct (half_cases x) as [Hf1 Hf2]. unfold round_half_even.
  set (f := Qfloor x) in *.
  assert (Hfk : (k <= f)%Z).
  { apply Z.lt_succ_r. rewrite Zlt_Qlt, <- Z.add_1_r, inject_Z_plus.
    change (inject_Z 1) with 1. lra. }
  destruct (Qcompare_spec (x - inject_Z f) (1 # 2)) as [He | Hl | Hg].
  - destruct (Z.eq_dec f k) as [-> | Hne]; [lra|].
    destruct (Z.even f); lia.
  - destruct (Z.eq_dec f k) as [-> | Hne]; [lra | lia].
  - lia.
Qed.

Lemma round_half_even_tie (x : Q) (k : Z) :
  x == inject_Z k + (1 # 2) ->
  round_half_even x = if Z.even k then k else (k + 1)%Z.
Proof.
  intros Hx. destruct (half_cases x) as [Hf1 Hf2]. unfold round_half_even.
  set (f := Qfloor x) in *.
  assert (Hfk : f = k).
  { apply Z.le_antisymm.
    - apply Z.lt_succ_r. rewrite Zlt_Qlt, <- Z.add_1_r, inject_Z_plus.
      change (inject_Z 1) with 1. lra.
    - apply Z.lt_succ_r. rewrite Zlt_Qlt, <- Z.add_1_r, inject_Z_plus.
      change (inject_Z 1) with 1. lra. }
  rewrite Hfk in *.
  destruct (Qcompare_spec (x - inject_Z k) (1 # 2)) as [He | Hl | Hg];
    [reflexivity | lra | lra].
Qed.

Lemma round_half_even_le (x : Q) (k : Z) :
  x <= inject_Z k -> (round_half_even x <= k)%Z.
Proof. intros Hx. apply round_half_even_below. lra. Qed.

Lemma round_half_even_ge (x : Q) (k : Z) :
  inject_Z k <= x -> (k <= round_half_even x)%Z.
Proof.
  intros Hx. pose proof (round_half_even_above x (k - 1)) as H.
  unfold Z.sub in H. rewrite inject_Z_plus in H.
  change (inject_Z (-1)) with (-1) in H.
  assert (Hlt : inject_Z k + -1 + (1 # 2) < x) by lra.
  specialize (H Hlt). lia.
Qed.

Lemma pow2_lt_inv (a b : Z) : pow2 a < pow2 b -> (a < b)%Z.
Proof. intros H. apply (Qpower_lt_compat_l_inv 2 a b H). reflexivity. Qed.

Lemma div_pow2 (x : Q) (a : Z) : x / pow2 a == x * pow2 (- a).
Proof.
  unfold Qdiv. apply Qmult_comp; [reflexivity|].
  unfold pow2. rewrite Qpower_opp. reflexivity.
Qed.

(** In the binade of [2^k] the result is the nearest multiple of
    [2^(k-52)]. *)
Lemma nearest_in_binade (x : Q) (k : Z) :
  (-1022 <= k)%Z -> pow2 k <= x -> x < pow2 (k + 1) ->
  nearest_binary64 x
  = inject_Z (round_half_even (x / pow2 (k - 52))) * pow2 (k - 52).
Proof.
  intros Hk Hlo Hhi.
  assert (Hx : 0 < x) by (eapply Qlt_le_trans; [apply pow2_pos | exact Hlo]).
  destruct (ilog2_spec x Hx) as [Hi1 Hi2].
  assert (Hik : ilog2 x = k).
  { pose proof (pow2_lt_inv k (ilog2 x + 1)
                  (Qle_lt_trans _ _ _ Hlo Hi2)).
    pose proof (pow2_lt_inv (ilog2 x) (k + 1)
                  (Qle_lt_trans _ _ _ Hi1 Hhi)).
    lia. }
  unfold nearest_binary64. rewrite Hik, Z.max_l by lia. reflexivity.
Qed.

Lemma nearest_le_pow2 (x : Q) (k : Z) :
  (-1021 <= k)%Z -> 0 < x -> x < pow2 k -> nearest_binary64 x <= pow2 k.
Proof.
  intros Hk Hx Hhi. destruct (ilog2_spec x Hx) as [Hi1 Hi2].
  pose proof (pow2_lt_inv _ _ (Qle_lt_trans _ _ _ Hi1 Hhi)) as Hik.
  unfold nearest_binary64.
  set (e := Z.max (ilog2 x) (-1022)).
  assert (He : (ilog2 x <= e)%Z /\ (e + 1 <= k)%Z) by (unfold e; lia).
  destruct He as [He1 He2].
  assert (Hxe : x < pow2 (e + 1)).
  { eapply Qlt_le_trans; [exact Hi2 | apply pow2_le; lia]. }
  assert (Hn : (round_half_even (x / pow2 (e - 52)) <= 2 ^ 53)%Z).
  { apply round_half_even_le. rewrite (pow2_inject 53 ltac:(lia)).
    rewrite div_pow2. rewrite (pow2_split 53 (- (e - 52))).
    replace (53 - - (e - 52))%Z with (e + 1)%Z by ring.
    apply Qmult_le_r; [apply pow2_pos | apply Qlt_le_weak; exact Hxe]. }
  apply Qle_trans with (pow2 (e + 1)); [|apply pow2_le; lia].
  rewrite (pow2_split (e + 1) (e - 52)).
  replace (e + 1 - (e - 52))%Z with 53%Z by ring.
  apply Qmult_le_r; [apply pow2_pos|].
  rewrite <- (pow2_inject 53 ltac:(lia)). rewrite <- Zle_Qle. exact Hn.
Qed.

Lemma nearest_ge_pow2 (x : Q) (k : Z) :
  (-1022 <= k)%Z -> pow2 k <= x -> pow2 k <= nearest_binary64 x.
Proof.
  intros Hk Hlo.
  assert (Hx : 0 < x) by (eapply Qlt_le_trans; [apply pow2_pos | exact Hlo]).
  destruct (ilog2_spec x Hx) as [Hi1 Hi2].
  pose proof (pow2_lt_inv _ _ (Qle_lt_trans _ _ _ Hlo Hi2)) as Hik.
  unfold nearest_binary64. rewrite Z.max_l by lia.
  set (e := ilog2 x) in *.
  assert (Hn : (2 ^ 52 <= round_half_even (x / pow2 (e - 52)))%Z).
  { apply round_half_even_ge. rewrite (pow2_inject 52 ltac:(lia)).
    rewrite div_pow2. rewrite (pow2_split 52 (- (e - 52))).
    replace (52 - - (e - 52))%Z with e by ring.
    apply Qmult_le_r; [apply pow2_pos | exact Hi1]. }
  apply Qle_trans with (pow2 e); [apply pow2_le; lia|].
  rewrite (pow2_split e (e - 52)) at 1.
  replace (e - (e - 52))%Z with 52%Z by ring.
  apply Qmult_le_r; [apply pow2_pos|].
  rewrite <- (pow2_inject 52 ltac:(lia)). rewrite <- Zle_Qle. exact Hn.
Qed.

(** Within a binade, the places where rounding changes are the
    midpoints [(m + 1/2) * 2^(k-52)]. *)
Lemma nearest_midpoint (x : Q) (k m : Z) :
  (-1022 <= k)%Z -> pow2 k <= x -> x < pow2 (k + 1) ->
  (x < (inject_Z m + (1 # 2)) * pow2 (k - 52) ->
   nearest_binary64 x <= inject_Z m * pow2 (k - 52))
  /\ ((inject_Z m + (1 # 2)) * pow2 (k - 52) < x ->
      inject_Z (m + 1) * pow2 (k - 52) <= nearest_binary64 x)
  /\ (x == (inject_Z m + (1 # 2)) * pow2 (k - 52) ->
      nearest_binary64 x
      = inject_Z (if Z.even m then m else (m + 1)%Z) * pow2 (k - 52)).
Proof.
  intros Hk Hlo Hhi. rewrite (nearest_in_binade x k Hk Hlo Hhi).
  pose proof (pow2_pos (k - 52)) as Hp.
  set (p := pow2 (k - 52)) in *.
  repeat split.
  - intros Hx. apply Qmult_le_r; [exact Hp|]. rewrite <- Zle_Qle.
    apply round_half_even_below. apply Qlt_shift_div_r; assumption.
  - intros Hx. apply Qmult_le_r; [exact Hp|]. rewrite <- Zle_Qle.
    apply round_half_even_above. apply Qlt_shift_div_l; assumption.
  - intros Hx. f_equal. f_equal. apply round_half_even_tie.
    rewrite Hx. unfold Qdiv. rewrite <- Qmult_assoc, Qmult_inv_r.
    + apply Qmult_1_r.
    + intros H0. rewrite H0 in Hp. discriminate.
Qed.

Lemma nearest_nonneg (x : Q) : 0 < x -> 0 <= nearest_binary64 x.
Proof.
  intros Hx. unfold nearest_binary64.
  apply Qmult_le_0_compat; [|apply Qlt_le_weak, pow2_pos].
  change 0 with (inject_Z 0). rewrite <- Zle_Qle.
  apply round_half_even_ge. change (inject_Z 0) with 0.
  apply Qle_shift_div_l; [apply pow2_pos|]. rewrite Qmult_0_l.
  apply Qlt_le_weak. exact Hx.
Qed.

(** The thresholds of [check_height]. *)
Lemma lower_threshold (x : Q) :
  0 < x ->
  (HEIGHT_LOW <= x -> double_1_20 < nearest_binary64 x)
  /\ (x < HEIGHT_LOW -> nearest_binary64 x <= double_1_20).
Proof.
  intros Hx.
  assert (Hmid : HEIGHT_LOW == (inject_Z M_1_20 + (1 # 2)) * pow2 (0 - 52))
    by reflexivity.
  assert (H1 : pow2 0 == 1) by reflexivity.
  assert (H2 : pow2 (0 + 1) == 2) by reflexivity.
  assert (H3 : pow2 1 == 2) by reflexivity.
  assert (Hlow1 : 1 < HEIGHT_LOW) by reflexivity.
  assert (Hlow2 : HEIGHT_LOW < 2) by reflexivity.
  assert (Hd1 : double_1_20 < 2) by reflexivity.
  assert (Hd0 : 1 <= double_1_20) by (intros H; discriminate H).
  split.
  - intros Hle. destruct (Qlt_le_dec x 2) as [Hlt | Hge].
    + destruct (nearest_midpoint x 0 M_1_20) as (_ & Habove & Htie);
        [lia | rewrite H1; lra | rewrite H2; exact Hlt |].
      rewrite <- Hmid in Habove, Htie.
      destruct (Qlt_le_dec HEIGHT_LOW x) as [Hs | Hs].
      * eapply Qlt_le_trans; [|exact (Habove Hs)]. reflexivity.
      * rewrite Htie by (apply Qle_antisym; assumption). reflexivity.
    + eapply Qlt_le_trans; [exact Hd1|]. rewrite <- H3.
      apply nearest_ge_pow2; [lia | rewrite H3; exact Hge].
  - intros Hlt. destruct (Qlt_le_dec x 1) as [Hs | Hs].
    + apply Qle_trans with (pow2 0); [|rewrite H1; exact Hd0].
      apply nearest_le_pow2; [lia | exact Hx | rewrite H1; exact Hs].
    + destruct (nearest_midpoint x 0 M_1_20) as (Hbelow & _ & _);
        [lia | rewrite H1; exact Hs | rewrite H2; lra |].
      rewrite <- Hmid in Hbelow. exact (Hbelow Hlt).
Qed.

Lemma upper_threshold (x : Q) :
  0 < x ->
  (x <= HEIGHT_HIGH -> nearest_binary64 x < double_2_10)
  /\ (HEIGHT_HIGH < x -> double_2_10 <= nearest_binary64 x).
Proof.
  intros Hx.
  assert (Hmid : HEIGHT_HIGH
                 == (inject_Z (M_2_10 - 1) + (1 # 2)) * pow2 (1 - 52))
    by reflexivity.
  assert (H2 : pow2 1 == 2) by reflexivity.
  assert (H4 : pow2 (1 + 1) == 4) by reflexivity.
  assert (H4' : pow2 2 == 4) by reflexivity.
  assert (Hhi2 : 2 < HEIGHT_HIGH) by reflexivity.
  assert (Hhi4 : HEIGHT_HIGH < 4) by reflexivity.
  assert (Hd2 : 2 < double_2_10) by reflexivity.
  assert (Hd4 : double_2_10 <= 4) by (intros H; discriminate H).
  split.
  - intros Hle. destruct (Qlt_le_dec x 2) as [Hlt | Hge].
    + eapply Qle_lt_trans; [|exact Hd2]. rewrite <- H2.
      apply nearest_le_pow2; [lia | exact Hx | rewrite H2; exact Hlt].
    + destruct (nearest_midpoint x 1 (M_2_10 - 1)) as (Hbelow & _ & Htie);
        [lia | rewrite H2; exact Hge | rewrite H4; lra |].
      rewrite <- Hmid in Hbelow, Htie.
      destruct (Qlt_le_dec x HEIGHT_HIGH) as [Hs | Hs].
      * eapply Qle_lt_trans; [exact (Hbelow Hs)|]. reflexivity.
      * rewrite Htie by (apply Qle_antisym; assumption). reflexivity.
  - intros Hlt. destruct (Qlt_le_dec x 4) as [Hs | Hs].
    + destruct (nearest_midpoint x 1 (M_2_10 - 1)) as (_ & Habove & _);
        [lia | rewrite H2; lra | rewrite H4; exact Hs |].
      rewrite <- Hmid in Habove.
      eapply Qle_trans; [|exact (Habove Hlt)]. intros H; discriminate H.
    + apply Qle_trans with (pow2 2); [rewrite H4'; exact Hd4|].
      apply nearest_ge_pow2; [lia | rewrite H4'; exact Hs].
Qed.

End Binary64.

(** ** Height *)

Section Height.
Local Open Scope Q_scope.

Lemma Qltb_lt (x y : Q) : Qltb x y = true <-> x < y.
Proof.
  unfold Qltb. rewrite Qlt_alt. destruct (x ?= y); split; congruence.
Qed.

Lemma literal_1_20 :
  exists q, float_literal "1.20" = F_finite q /\ q == double_1_20.
Proof. eexists. split; [vm_compute; reflexivity | reflexivity]. Qed.

Lemma literal_2_10 :
  exists q, float_literal "2.10" = F_finite q /\ q == double_2_10.
Proof. eexists. split; [vm_compute; reflexivity | reflexivity]. Qed.

(** The comparison of [check_height] on what [round_binary64] returns
    for a numeral of sign [negative] and absolute value [x]. *)
Lemma rounded_in_range (negative : bool) (x : Q) :
  0 <= x ->
  float_gt (round_binary64 negative x) (float_literal "1.20")
  && float_lt (round_binary64 negative x) (float_literal "2.10") = true
  <-> HEIGHT_LOW <= (if negative then - x else x)
      /\ (if negative then - x else x) <= HEIGHT_HIGH.
Proof.
  intros Hx0.
  destruct literal_1_20 as (q1 & -> & Hq1).
  destruct literal_2_10 as (q2 & -> & Hq2).
  assert (Hlow : 0 < HEIGHT_LOW) by reflexivity.
  assert (Hd1 : 0 < double_1_20) by reflexivity.
  assert (Hbig : double_2_10 < pow2 1024) by reflexivity.
  unfold round_binary64.
  destruct (Qcompare_spec 0 x) as [Hz | Hpos | Hneg].
  - cbn [float_gt float_lt]. rewrite andb_true_iff, !Qltb_lt, Hq1.
    split; [intros [H _]; lra|].
    intros [H _]. destruct negative; lra.
  - destruct (lower_threshold x Hpos) as [Hl1 Hl2].
    destruct (upper_threshold x Hpos) as [Hu1 Hu2].
    pose proof (nearest_nonneg x Hpos) as Hnn.
    unfold round_binary64_pos.
    destruct (Qle_bool (pow2 1024) (nearest_binary64 x)) eqn:Hov.
    + apply Qle_bool_iff in Hov.
      assert (Hhigh : HEIGHT_HIGH < x).
      { apply Qnot_le_lt. intros Hle. specialize (Hu1 Hle). lra. }
      destruct negative; cbn; (split; [discriminate | intros [? ?]; lra]).
    + destruct negative; cbn [float_gt float_lt];
        rewrite andb_true_iff, !Qltb_lt, Hq1, Hq2.
      * split; [intros [? _]; lra | intros [? _]; lra].
      * split.
        -- intros [Hg Hl]. split.
           ++ apply Qnot_lt_le. intros Hc. specialize (Hl2 Hc). lra.
           ++ apply Qnot_lt_le. intros Hc. specialize (Hu2 Hc). lra.
        -- intros [Hg Hl]. auto.
  - lra.
Qed.

Lemma fold_digits_nonneg (ds : pystr) :
  forall acc, (0 <= acc)%Z ->
    Forall (fun c => Py_ISDIGIT c = true) ds ->
    (0 <= fold_left (fun v c => v * 10 + (c - ord "0")) ds acc)%Z.
Proof.
  induction ds as [|c ds IH]; intros acc Hacc Hall; [exact Hacc|].
  inversion Hall as [|? ? Hc Hds]; subst. cbn [fold_left]. apply IH.
  - unfold Py_ISDIGIT in Hc. apply andb_true_iff in Hc as [Hc _].
    apply Z.leb_le in Hc. lia.
  - exact Hds.
Qed.

Lemma span_digits_digits (s : pystr) :
  Forall (fun c => Py_ISDIGIT c = true) (fst (span_digits s)).
Proof.
  induction s as [|c s IH]; cbn [span_digits]; [constructor|].
  destruct (Py_ISDIGIT c) eqn:Hc; [|constructor].
  destruct (span_digits s) as [ds r]. cbn [fst] in *.
  constructor; assumption.
Qed.

(** The coefficient of a numeral is not negative. *)
Lemma parse_decimal_nonneg (s : pystr) (d : decimal) :
  parse_decimal s = Some d -> 0 <= decimal_value d.
Proof.
  unfold parse_decimal. destruct (split_sign s) as [negative s1].
  pose proof (span_digits_digits s1) as Hint.
  destruct (span_digits s1) as [int_part s2]. cbn [fst] in Hint.
  assert (Hfrac : forall fr r,
    (match s2 with
     | c :: s2' => if (c =? ord ".")%Z then span_digits s2' else ([], s2)
     | [] => ([], [])
     end) = (fr, r) -> Forall (fun c => Py_ISDIGIT c = true) fr).
  { intros fr r Heq. destruct s2 as [|c s2'].
    - injection Heq as <- _. constructor.
    - destruct (c =? ord ".")%Z.
      + pose proof (span_digits_digits s2') as H. rewrite Heq in H. exact H.
      + injection Heq as <- _. constructor. }
  destruct (match s2 with
            | c :: s2' => if (c =? ord ".")%Z then span_digits s2' else ([], s2)
            | [] => ([], [])
            end) as [frac_part s3] eqn:Hf.
  specialize (Hfrac frac_part s3 eq_refl).
  assert (Hall : Forall (fun c => Py_ISDIGIT c = true)
                        (int_part ++ frac_part)).
  { apply Forall_app. split; assumption. }
  destruct (int_part ++ frac_part) as [|c ds] eqn:Hds; [discriminate|].
  destruct (parse_exponent s3) as [e|]; [|discriminate].
  intros [= <-]. unfold decimal_value. cbn [d_coeff d_exp].
  apply Qmult_le_0_compat.
  - change 0 with (inject_Z 0). rewrite <- Zle_Qle.
    apply fold_digits_nonneg; [lia | exact Hall].
  - apply Qpower_0_le. discriminate.
Qed.

(** C4, as amended. [check_height] accepts a text exactly when [float]
    reads a decimal numeral in it whose value lies between
    [HEIGHT_LOW] and [HEIGHT_HIGH], the two midpoints next to the
    binary64 numbers nearest to 1.20 and 2.10; both bounds lie strictly
    between 1.20 and 2.10.  "1.20" and "2.10" are refused, "1.21" and
    "2.09" accepted, and texts that are no number are refused. *)
Theorem check_height_range :
  (forall s, check_height s = true
             <-> exists d, numeral s = Some d
                           /\ HEIGHT_LOW <= signed_value d
                           /\ signed_value d <= HEIGHT_HIGH)
  /\ (12 # 10 < HEIGHT_LOW /\ HEIGHT_HIGH < 21 # 10)
  /\ check_height (u "1.20") = false
  /\ check_height (u "2.10") = false
  /\ check_height (u "1.21") = true
  /\ check_height (u "2.09") = true
  /\ check_height (u "tall") = false
  /\ check_height (u "") = false.
Proof.
  split; [|split; [split; reflexivity | repeat split; vm_compute; reflexivity]].
  intros s. unfold check_height, py_float, numeral, string_to_double.
  destruct (float_text s) as [t|].
  - destruct (parse_decimal t) as [d|] eqn:Hd.
    + rewrite (rounded_in_range (d_negative d) (decimal_value d)
                 (parse_decimal_nonneg t d Hd)).
      unfold signed_value. split.
      * intros [H1 H2]. exists d. auto.
      * intros (d' & [= <-] & H1 & H2). auto.
    + split; [|intros (d' & [=] & _)].
      unfold parse_inf_or_nan. destruct (split_sign t) as [negative t1].
      destruct literal_1_20 as (q1 & -> & _).
      destruct literal_2_10 as (q2 & -> & _).
      destruct (pystr_eqb _ _ || pystr_eqb _ _).
      * destruct negative; cbn [float_gt float_lt andb negb]; discriminate.
      * destruct (pystr_eqb _ _); cbn [float_gt float_lt andb negb];
          discriminate.
  - split; [discriminate | intros (d' & [=] & _)].
Qed.

(** C4 as stated fails: the numeral 1.2000000000000000001 has a value
    strictly between 1.20 and 2.10, and [check_height] refuses it,
    because [float] rounds it to the binary64 number nearest to 1.20. *)
Lemma check_height_rejects_just_above_1_20 :
  numeral (u "1.2000000000000000001")
  = Some {| d_negative := false; d_coeff := 12000000000000000001;
            d_exp := -19 |}
  /\ 12 # 10 < signed_value {| d_negative := false;
                               d_coeff := 12000000000000000001;
                               d_exp := -19 |}
  /\ signed_value {| d_negative := false; d_coeff := 12000000000000000001;
                     d_exp := -19 |} < 21 # 10
  /\ check_height (u "1.2000000000000000001") = false.
Proof. repeat split; vm_compute; reflexivity. Qed.

End Height.

(** ** Two runs on one record *)

(** The record of the specification that passes every check: it is
    classified valid and the summary counts no error. *)
Example run_valid_record :
  @run cpython_3_11 [sample_dict] (u "36_result.txt")
  = Ok (Written (u "36_result.txt") (summary_file 0 errors_count_init),
        [sample_entry]).
Proof. vm_compute. reflexivity. Qed.

(** The same record with the telephone "+71234567890": it is classified
    invalid for the telephone, and the summary counts one error, for
    the telephone. *)
Example run_wrong_telephone :
  @run cpython_3_11 [<[u "telephone" := u "+71234567890"]> sample_dict]
       (u "36_result.txt")
  = Ok (Written (u "36_result.txt")
          (summary_file 1
             ((u "telephone", 1%nat) :: tail errors_count_init)),
        []).
Proof. vm_compute. reflexivity. Qed.

(** Eleven Arabic-Indic digits pass [check_snils]: [\d] is the Unicode
    class of decimal digits. *)
Example check_snils_unicode_digits :
  check_snils (repeat 1633 11) = true.
Proof. vm_compute. reflexivity. Qed.

(** ** What [check_snils] accepts *)

Lemma in_match_class_exact (items : list set_item) (n : nat)
    (st st' : state) :
  In st' (match_op (MAX_REPEAT n (Some n) [IN items]) st) <->
  exists c, length c = n /\ forallb (in_set items) c = true
            /\ snd st = c ++ snd st' /\ fst st' = (fst st + n)%nat.
Proof.
  rewrite match_op_MAX_REPEAT, Nat.sub_diag. cbn [iter_upto].
  rewrite (iter_exact_ext _ _ (match_seq_single_IN items)).
  apply in_iter_exact_class.
Qed.

Lemma forallb_in_set_digit (c : pystr) :
  forallb (in_set [CATEGORY CATEGORY_DIGIT]) c
  = forallb Py_UNICODE_ISDECIMAL c.
Proof.
  induction c as [|x c IH]; [reflexivity|].
  cbn [forallb]. rewrite IH. unfold in_set at 1.
  cbn [existsb item_match category_match]. rewrite orb_false_r. reflexivity.
Qed.

(** [check_snils] accepts eleven decimal digits, and eleven decimal
    digits followed by one newline, and nothing else. *)
Lemma check_snils_spec (s : pystr) :
  check_snils s = true <->
  exists c, length c = 11%nat /\ forallb Py_UNICODE_ISDECIMAL c = true
            /\ (s = c \/ s = c ++ [NEWLINE]).
Proof.
  unfold check_snils, snils_pattern, DIGIT.
  assert (Hif : forall b : bool, (if b then true else false) = true
                                 <-> b = true)
    by (intros []; tauto).
  rewrite Hif, truthy_re_match. split.
  - intros (st' & Hin).
    apply in_match_seq_cons in Hin as (st1 & H1 & Hin).
    apply in_match_AT_BEGINNING in H1 as ->.
    apply in_match_seq_cons in Hin as (st2 & H2 & Hin).
    apply in_match_class_exact in H2 as (c & Hlen & Hall & Hs & _).
    apply in_match_seq_cons in Hin as (st3 & H3 & _).
    apply in_match_AT_END in H3 as [_ Hend].
    exists c. rewrite <- forallb_in_set_digit. cbn [snd] in Hs.
    repeat split; try assumption.
    destruct Hend as [He | He]; rewrite He in Hs;
      [left; now rewrite app_nil_r in Hs | right; exact Hs].
  - intros (c & Hlen & Hall & Hs).
    rewrite <- forallb_in_set_digit in Hall.
    assert (Hex : exists r, s = c ++ r /\ (r = [] \/ r = [NEWLINE])).
    { destruct Hs as [-> | ->]; [exists []; rewrite app_nil_r | eexists]; eauto. }
    destruct Hex as (r & -> & Hr).
    exists (11%nat, r).
    apply in_match_seq_cons. exists (O, c ++ r). split.
    { apply in_match_AT_BEGINNING. reflexivity. }
    apply in_match_seq_cons. exists (11%nat, r). split.
    { apply in_match_class_exact. exists c. cbn [fst snd]. auto. }
    apply in_match_seq_cons. exists (11%nat, r). split.
    { apply in_match_AT_END. auto. }
    left. reflexivity.
Qed.

(** * Further properties *)

(** ** The languages of the patterns *)

Lemma reads_ext (f : state -> list state) (L L' : pystr -> Prop) :
  (forall c, L c <-> L' c) -> reads f L -> reads f L'.
Proof.
  intros Heq Hf st st'. rewrite (Hf st st'). split;
    intros (c & Hc & Hrest); exists c; (split; [apply Heq; exact Hc | exact Hrest]).
Qed.

Lemma reads_LITERAL (x : Z) : reads (match_op (LITERAL x)) (fun c => c = [x]).
Proof.
  intros st st'. cbn [match_op]. rewrite in_one_char. split.
  - intros (c & Hc & Hs & Hi). apply Z.eqb_eq in Hc as <-.
    exists [x]. cbn [length app]. repeat split; [exact Hs | lia].
  - intros (c & -> & Hs & Hi). exists x. cbn [length app] in *.
    repeat split; [apply Z.eqb_refl | exact Hs | lia].
Qed.

Lemma reads_digits (n : nat) :
  reads (match_op (MAX_REPEAT n (Some n) [DIGIT])) (digits n).
Proof.
  intros st st'. unfold DIGIT, digits. rewrite in_match_class_exact. split.
  - intros (c & Hlen & Hall & Hs & Hi). exists c.
    rewrite <- forallb_in_set_digit, Hlen. auto.
  - intros (c & [Hlen Hall] & Hs & Hi). exists c.
    rewrite forallb_in_set_digit, <- Hlen. auto.
Qed.

Lemma reads_class_plus (items : list set_item) :
  reads (match_op (MAX_REPEAT 1 None [IN items]))
        (fun c => c <> [] /\ forallb (in_set items) c = true).
Proof.
  intros st st'. rewrite in_match_class_plus. split.
  - intros (c & Hne & Hall & Hrest). exists c. auto.
  - intros (c & [Hne Hall] & Hrest). exists c. auto.
Qed.

Lemma reads_seq_nil :
  reads (fun st => match_seq [] [st]) (fun c => c = []).
Proof.
  intros st st'. cbn [match_seq]. split.
  - intros [<- | []]. exists []. cbn. auto with arith.
  - intros (c & -> & Hs & Hi). left. destruct st, st'. cbn in *.
    subst. f_equal. lia.
Qed.

Lemma reads_seq_cons (o : op) (p : list op) (L1 L2 : pystr -> Prop) :
  reads (match_op o) L1 ->
  reads (fun st => match_seq p [st]) L2 ->
  reads (fun st => match_seq (o :: p) [st])
        (fun c => exists c1 c2, c = c1 ++ c2 /\ L1 c1 /\ L2 c2).
Proof.
  intros H1 H2 st st'. rewrite in_match_seq_cons. split.
  - intros (st1 & Hin1 & Hin2).
    apply H1 in Hin1 as (c1 & Hc1 & Hs1 & Hi1).
    apply H2 in Hin2 as (c2 & Hc2 & Hs2 & Hi2).
    exists (c1 ++ c2). split; [exists c1, c2; auto|].
    rewrite Hs1, Hs2, Hi2, Hi1, length_app, <- app_assoc. split; [reflexivity | lia].
  - intros (c & (c1 & c2 & -> & Hc1 & Hc2) & Hs & Hi).
    exists ((fst st + length c1)%nat, c2 ++ snd st'). split.
    + apply H1. exists c1. cbn [fst snd]. rewrite Hs, <- app_assoc. auto.
    + apply H2. exists c2. cbn [fst snd]. rewrite Hi, length_app.
      repeat split; [exact Hc2 | lia].
Qed.

Lemma reads_SUBPATTERN (group : nat) (body : list op) (L : pystr -> Prop) :
  reads (fun st => match_seq body [st]) L ->
  reads (match_op (SUBPATTERN group body)) L.
Proof. intros H st st'. rewrite match_op_SUBPATTERN. apply H. Qed.

(** A pattern [^ body $] accepts the texts of the language of [body],
    and those texts followed by one newline. *)
Lemma anchored_language (body : list op) (L : pystr -> Prop) (s : pystr) :
  reads (fun st => match_seq body [st]) L ->
  (truthy (re_match (AT AT_BEGINNING :: body ++ [AT AT_END]) s) = true
   <-> exists c r, s = c ++ r /\ L c /\ optional_newline r).
Proof.
  intros Hbody. rewrite truthy_re_match. split.
  - intros (st' & Hin).
    apply in_match_seq_cons in Hin as (st1 & H1 & Hin).
    apply in_match_AT_BEGINNING in H1 as ->.
    rewrite match_seq_app in Hin. apply in_match_seq in Hin as (st2 & H2 & Hin).
    apply Hbody in H2 as (c & Hc & Hs & _). cbn [snd] in Hs.
    apply in_match_seq_cons in Hin as (st3 & H3 & _).
    apply in_match_AT_END in H3 as [_ Hend].
    exists c, (snd st2). auto.
  - intros (c & r & -> & Hc & Hr). exists (length c, r).
    apply in_match_seq_cons. exists (O, c ++ r). split.
    { apply in_match_AT_BEGINNING. reflexivity. }
    rewrite match_seq_app. apply in_match_seq. exists (length c, r). split.
    { apply Hbody. exists c. cbn [fst snd]. auto. }
    apply in_match_seq_cons. exists (length c, r). split.
    { apply in_match_AT_END. auto. }
    left. reflexivity.
Qed.

Lemma if_true_iff (b : bool) : (if b then true else false) = true <-> b = true.
Proof. destruct b; split; congruence. Qed.

Ltac reads_pattern :=
  repeat first
    [ apply reads_seq_nil
    | eapply reads_seq_cons;
      [ first [ apply reads_LITERAL | apply reads_digits
              | apply reads_class_plus | eapply reads_SUBPATTERN ] | ] ].

Lemma language_cons (L1 L2 : pystr -> Prop) (c1 c2 : pystr) :
  L1 c1 -> L2 c2 -> exists x y, c1 ++ c2 = x ++ y /\ L1 x /\ L2 y.
Proof. intros H1 H2. exists c1, c2. auto. Qed.

Ltac build_language :=
  repeat first
    [ reflexivity
    | assumption
    | apply language_cons ].

(** X1. [check_passport] accepts exactly two decimal digits, a space
    and two decimal digits, with or without one newline after them. *)
Theorem check_passport_accepted_set (s : pystr) :
  check_passport s = true <->
  exists a b r,
    s = a ++ u " " ++ b ++ r
    /\ digits 2 a /\ digits 2 b /\ optional_newline r.
Proof.
  unfold check_passport, passport_pattern. rewrite if_true_iff.
  epose proof (anchored_language
    [MAX_REPEAT 2 (Some 2%nat) [DIGIT]; LITERAL (ord " ");
     MAX_REPEAT 2 (Some 2%nat) [DIGIT]] _ s ltac:(reads_pattern)) as Ha.
  cbn [app] in Ha. rewrite Ha. clear Ha. split.
  - intros (c & r & -> & (a & c2 & -> & Ha & (sp & c3 & -> & ->
             & (b & c4 & -> & Hb & ->))) & Hr).
    exists a, b, r.
    split; [rewrite app_nil_r, <- !app_assoc; reflexivity | auto].
  - intros (a & b & r & -> & Ha & Hb & Hr).
    exists (a ++ u " " ++ b ++ []), r. split; [|split; [|exact Hr]].
    + rewrite app_nil_r, <- !app_assoc. reflexivity.
    + build_language.
Qed.

(** X2. [check_telephone] accepts exactly the texts [+7-(DDD)-DDD-DD-DD]
    with decimal digits for [D], with or without one newline after
    them. *)
Theorem check_telephone_accepted_set (s : pystr) :
  check_telephone s = true <->
  exists a b c d r,
    s = u "+7-(" ++ a ++ u ")-" ++ b ++ u "-" ++ c ++ u "-" ++ d ++ r
    /\ digits 3 a /\ digits 3 b /\ digits 2 c /\ digits 2 d
    /\ optional_newline r.
Proof.
  unfold check_telephone, telephone_pattern. rewrite if_true_iff.
  epose proof (anchored_language
    [SUBPATTERN 1
       [LITERAL (ord "+"); LITERAL (ord "7"); LITERAL (ord "-");
        LITERAL (ord "("); MAX_REPEAT 3 (Some 3%nat) [DIGIT];
        LITERAL (ord ")"); LITERAL (ord "-");
        MAX_REPEAT 3 (Some 3%nat) [DIGIT]; LITERAL (ord "-");
        MAX_REPEAT 2 (Some 2%nat) [DIGIT]; LITERAL (ord "-");
        MAX_REPEAT 2 (Some 2%nat) [DIGIT]]] _ s ltac:(reads_pattern)) as Ha.
  cbn [app] in Ha. rewrite Ha. clear Ha. split.
  - intros (cs & r & -> & (cb & c0 & -> &
      (p1 & t1 & -> & -> & (p2 & t2 & -> & -> & (p3 & t3 & -> & -> &
      (p4 & t4 & -> & -> & (a & t5 & -> & Ha & (p5 & t6 & -> & -> &
      (p6 & t7 & -> & -> & (b & t8 & -> & Hb & (p7 & t9 & -> & -> &
      (c & t10 & -> & Hc & (p8 & t11 & -> & -> &
      (d & t12 & -> & Hd & ->)))))))))))) & ->) & Hr).
    exists a, b, c, d, r.
    split; [rewrite !app_nil_r, <- !app_assoc; reflexivity | auto 10].
  - intros (a & b & c & d & r & -> & Ha & Hb & Hc & Hd & Hr).
    exists ((u "+" ++ u "7" ++ u "-" ++ u "(" ++ a ++ u ")" ++ u "-" ++ b
             ++ u "-" ++ c ++ u "-" ++ d ++ []) ++ []), r.
    split; [|split; [|exact Hr]].
    + rewrite !app_nil_r, <- !app_assoc. reflexivity.
    + build_language.
Qed.

(** X3. [check_snils] accepts exactly eleven decimal digits, with or
    without one newline after them. *)
Theorem check_snils_accepted_set (s : pystr) :
  check_snils s = true <->
  exists c r, s = c ++ r /\ digits 11 c /\ optional_newline r.
Proof.
  unfold check_snils, snils_pattern. rewrite if_true_iff.
  epose proof (anchored_language
    [MAX_REPEAT 11 (Some 11%nat) [DIGIT]] _ s ltac:(reads_pattern)) as Ha.
  cbn [app] in Ha. rewrite Ha. clear Ha. split.
  - intros (cs & r & -> & (c & c0 & -> & Hc & ->) & Hr).
    exists c, r. rewrite app_nil_r. auto.
  - intros (c & r & -> & Hc & Hr). exists (c ++ []), r.
    split; [now rewrite app_nil_r | split; [|exact Hr]].
    build_language.
Qed.

Lemma forallb_eq (f g : Z -> bool) (c : pystr) :
  (forall x, f x = g x) -> forallb f c = forallb g c.
Proof.
  intros Hfg. induction c as [|x c IH]; [reflexivity|].
  cbn [forallb]. rewrite IH, Hfg. reflexivity.
Qed.

Lemma in_set_address_class (c : Z) :
  in_set [RANGE cyr_a cyr_ya; RANGE cyr_A cyr_YA; IN_LITERAL (ord "-");
          CATEGORY CATEGORY_SPACE] c
  = address_char c.
Proof.
  unfold in_set, address_char, in_cyrillic_ranges.
  cbn [existsb item_match category_match].
  generalize (Py_UNICODE_ISSPACE c). intros w.
  repeat match goal with
         | |- context [Z.leb ?a ?b] => destruct (Z.leb a b)
         | |- context [Z.eqb ?a ?b] => destruct (Z.eqb a b)
         end; destruct w; reflexivity.
Qed.

Lemma in_set_university_class (c : Z) :
  in_set [RANGE cyr_a cyr_ya; RANGE cyr_A cyr_YA; IN_LITERAL (ord "-");
          CATEGORY CATEGORY_SPACE; IN_LITERAL (ord ".")] c
  = university_char c.
Proof.
  unfold in_set, university_char, in_cyrillic_ranges.
  cbn [existsb item_match category_match].
  generalize (Py_UNICODE_ISSPACE c). intros w.
  repeat match goal with
         | |- context [Z.leb ?a ?b] => destruct (Z.leb a b)
         | |- context [Z.eqb ?a ?b] => destruct (Z.eqb a b)
         end; destruct w; reflexivity.
Qed.

(** X4. [check_address] accepts exactly a non-empty run of characters
    from the Cyrillic ranges, hyphen and white space, followed by a
    non-empty run of decimal digits, with or without one newline after
    them. *)
Theorem check_address_accepted_set (s : pystr) :
  check_address s = true <->
  exists street number r,
    s = street ++ number ++ r
    /\ street <> [] /\ forallb address_char street = true
    /\ number <> [] /\ forallb Py_UNICODE_ISDECIMAL number = true
    /\ optional_newline r.
Proof.
  unfold check_address, address_pattern, DIGIT. rewrite if_true_iff.
  epose proof (anchored_language
    [MAX_REPEAT 1 None
       [IN [RANGE cyr_a cyr_ya; RANGE cyr_A cyr_YA; IN_LITERAL (ord "-");
            CATEGORY CATEGORY_SPACE]];
     MAX_REPEAT 1 None [IN [CATEGORY CATEGORY_DIGIT]]] _ s
    ltac:(reads_pattern)) as Ha.
  cbn [app] in Ha. rewrite Ha. clear Ha. split.
  - intros (cs & r & -> & (a & c2 & -> & [Ha1 Ha2]
             & (b & c3 & -> & [Hb1 Hb2] & ->)) & Hr).
    exists a, b, r.
    rewrite (forallb_eq _ _ a in_set_address_class) in Ha2.
    rewrite forallb_in_set_digit in Hb2.
    split; [rewrite app_nil_r, <- !app_assoc; reflexivity | auto 10].
  - intros (a & b & r & -> & Ha1 & Ha2 & Hb1 & Hb2 & Hr).
    rewrite <- (forallb_eq _ _ a in_set_address_class) in Ha2.
    rewrite <- forallb_in_set_digit in Hb2.
    exists (a ++ b ++ []), r. split; [|split; [|exact Hr]].
    + rewrite app_nil_r, <- !app_assoc. reflexivity.
    + apply language_cons; [split; assumption|].
      apply language_cons; [split; assumption | reflexivity].
Qed.

Lemma Py_UNICODE_ISSPACE_NEWLINE : Py_UNICODE_ISSPACE NEWLINE = true.
Proof. reflexivity. Qed.

(** X5. [check_university] accepts exactly the non-empty texts made of
    characters from the Cyrillic ranges, hyphen, white space and full
    stop; a newline at the end is white space like any other. *)
Theorem check_university_accepted_set (s : pystr) :
  check_university s = true <->
  s <> [] /\ forallb university_char s = true.
Proof.
  unfold check_university, university_pattern. rewrite if_true_iff.
  rewrite class_plus_end_spec. split.
  - intros (c & Hne & Hall & Hs).
    rewrite (forallb_eq _ _ c in_set_university_class) in Hall.
    destruct Hs as [-> | ->]; [auto|]. split.
    + intros Hnil. apply app_eq_nil in Hnil as [_ [=]].
    + rewrite forallb_app, Hall. reflexivity.
  - intros [Hne Hall]. exists s.
    rewrite (forallb_eq _ _ s in_set_university_class). auto.
Qed.

(** ** Valid records *)

Section ValidRecords.
Context `{Interp}.

Lemma is_legal_passes (e : Entry) : is_legal e = passes_all_checks e.
Proof.
  unfold is_legal, parse_entry, passes_all_checks.
  repeat match goal with
         | |- context [if negb ?b then _ else _] =>
           destruct b; cbn [negb andb app length Nat.eqb]; [|reflexivity]
         end.
  reflexivity.
Qed.

(** X6. The second sequence [parse] returns holds exactly the records
    of the batch for which every one of the nine checks returns true. *)
Theorem valid_records_pass_all_checks (self : Validator) (e : Entry) :
  In e (snd (parse self)) <->
  In e (entries self) /\ passes_all_checks e = true.
Proof.
  unfold parse. rewrite parse_loop_spec. cbn [snd app].
  rewrite filter_In, is_legal_passes. reflexivity.
Qed.

(** X7. Classifying two batches one after the other gives the reasons
    and the valid records of the first followed by those of the second. *)
Theorem parse_app (a b : list Entry) :
  parse {| entries := a ++ b |} =
  (fst (parse {| entries := a |}) ++ fst (parse {| entries := b |}),
   snd (parse {| entries := a |}) ++ snd (parse {| entries := b |})).
Proof.
  unfold parse. cbn [entries]. rewrite !parse_loop_spec. cbn [fst snd app].
  rewrite !List.filter_app, map_app. reflexivity.
Qed.

Lemma empty_field_fails (e : Entry) :
  has_empty_field e = true -> passes_all_checks e = false.
Proof.
  unfold has_empty_field, passes_all_checks. cbn [existsb].
  assert (Hnil : forall v : pystr, Nat.eqb (length v) 0 = true -> v = []).
  { intros [|x v]; [reflexivity | discriminate]. }
  assert (Hw : check_work_experience [] = false) by (vm_compute; reflexivity).
  assert (Hh : check_height [] = false) by (vm_compute; reflexivity).
  intros Hor. rewrite orb_false_r in Hor.
  repeat rewrite orb_true_iff in Hor.
  repeat match type of Hor with
         | _ \/ _ => destruct Hor as [Hor | Hor]
         end;
    apply Hnil in Hor; rewrite Hor;
    repeat first [ rewrite Hw | rewrite Hh
                 | rewrite andb_false_r | rewrite andb_false_l
                 | reflexivity
                 | match goal with
                   | |- context [?f []] =>
                     change (f []) with false
                   end ].
Qed.

(** X8. A record with an empty field is not classified valid: every
    check refuses the empty text. *)
Theorem empty_field_is_invalid (self : Validator) (e : Entry) :
  has_empty_field e = true -> ~ In e (snd (parse self)).
Proof.
  intros Hempty Hin. unfold parse in Hin. rewrite parse_loop_spec in Hin.
  cbn [snd app] in Hin. apply filter_In in Hin as [_ Hlegal].
  rewrite is_legal_passes, (empty_field_fails e Hempty) in Hlegal.
  discriminate.
Qed.

End ValidRecords.

Lemma empty_field_is_invalid_witness :
  has_empty_field (set_snils [] sample_entry) = true
  /\ ~ In (set_snils [] sample_entry)
         (snd (@parse cpython_3_11
                 {| entries := [sample_entry; set_snils [] sample_entry] |})).
Proof.
  split; [reflexivity|].
  apply (@empty_field_is_invalid cpython_3_11). reflexivity.
Defined.

(** ** Building the records *)

Lemma Entry_init_eq (dic : pydict) :
  Entry_init dic =
  match first_missing dic with
  | Some key => Raise (KeyError key)
  | None => Ok (Entry_of_dict dic)
  end.
Proof.
  unfold Entry_init, first_missing, REQUIRED_KEYS, Entry_of_dict, value_of,
    getitem.
  cbn [find].
  repeat match goal with
         | |- context [bool_decide (dic !! ?k = None)] =>
           destruct (dic !! k) eqn:?;
           [ rewrite (bool_decide_eq_false_2 (Some _ = None)) by discriminate
           | rewrite (bool_decide_eq_true_2 (None = None)) by reflexivity;
             reflexivity ];
           cbn [bind default]
         end.
  reflexivity.
Qed.

Lemma Validator_init_loop_eq (todo : list pydict) :
  forall acc,
    Validator_init_loop todo acc =
    match first_error todo with
    | Some key => Raise (KeyError key)
    | None => Ok (acc ++ map Entry_of_dict todo)
    end.
Proof.
  induction todo as [|d todo IH]; intros acc; cbn [Validator_init_loop first_error map].
  - rewrite app_nil_r. reflexivity.
  - rewrite Entry_init_eq. destruct (first_missing d); cbn [bind]; [reflexivity|].
    rewrite IH. destruct (first_error todo); [reflexivity|].
    rewrite <- app_assoc. reflexivity.
Qed.

(** X9. [Entry.__init__] succeeds with a record exactly when the dict
    has all nine keys; the record then keeps the dict itself and, in
    each field, the dict's value under the key of that name. *)
Theorem Entry_init_reads_the_nine_keys (dic : pydict) (e : Entry) :
  Entry_init dic = Ok e <->
  curdict e = dic
  /\ dic !! u "telephone" = Some (telephone e)
  /\ dic !! u "height" = Some (height e)
  /\ dic !! u "snils" = Some (snils e)
  /\ dic !! u "passport_series" = Some (passport_series e)
  /\ dic !! u "university" = Some (university e)
  /\ dic !! u "work_experience" = Some (work_experience e)
  /\ dic !! u "academic_degree" = Some (academic_degree e)
  /\ dic !! u "worldview" = Some (worldview e)
  /\ dic !! u "address" = Some (address e).
Proof.
  unfold Entry_init, getitem. split.
  - intros Hinit.
    repeat match type of Hinit with
           | context [dic !! ?k] =>
             destruct (dic !! k) eqn:?; cbn [bind] in Hinit;
             [|discriminate Hinit]
           end.
    injection Hinit as <-. cbn. repeat split; reflexivity.
  - intros (Hd & H1 & H2 & H3 & H4 & H5 & H6 & H7 & H8 & H9).
    rewrite H1, H2, H3, H4, H5, H6, H7, H8, H9. cbn [bind].
    destruct e; cbn in *. subst. reflexivity.
Qed.

(** X10. The first key that a dict lacks, in the order telephone,
    height, snils, passport_series, university, work_experience,
    academic_degree, worldview, address, is the key of the KeyError that
    [Entry.__init__] raises. *)
Theorem Entry_init_raises_first_missing (dic : pydict) (key : pystr) :
  Entry_init dic = Raise (KeyError key) <-> first_missing dic = Some key.
Proof.
  rewrite Entry_init_eq. destruct (first_missing dic) as [k|].
  - split; intros Heq; injection Heq as ->; reflexivity.
  - split; discriminate.
Qed.

(** X11. [Validator.__init__] builds one record per dict, in order,
    unless some dict lacks a key: then it raises the KeyError of the
    first missing key of the first such dict and builds nothing. *)
Theorem Validator_init_all_or_nothing (data : list pydict) :
  Validator_init data =
  match first_error data with
  | Some key => Raise (KeyError key)
  | None => Ok {| entries := map Entry_of_dict data |}
  end.
Proof.
  unfold Validator_init. rewrite Validator_init_loop_eq.
  destruct (first_error data); reflexivity.
Qed.

(** ** The tally of the summary *)

Lemma count_name_cons (key j : pystr) (names : list pystr) :
  count_name key (j :: names) =
  ((if pystr_eqb key j then 1 else 0) + count_name key names)%nat.
Proof.
  unfold count_name. cbn [List.filter]. destruct (pystr_eqb key j); reflexivity.
Qed.

Lemma count_name_app (key : pystr) (a b : list pystr) :
  count_name key (a ++ b) = (count_name key a + count_name key b)%nat.
Proof.
  unfold count_name. rewrite List.filter_app, length_app. reflexivity.
Qed.

Lemma pystr_eqb_eq (a b : pystr) : pystr_eqb a b = true <-> a = b.
Proof. unfold pystr_eqb. apply bool_decide_eq_true. Qed.

Lemma increment_eq (t : list (pystr * nat)) (j : pystr) :
  List.NoDup (map fst t) ->
  increment t j =
  if existsb (fun key => pystr_eqb key j) (map fst t)
  then Ok (map (fun kv => (fst kv,
                           (snd kv + (if pystr_eqb (fst kv) j then 1 else 0))%nat))
               t)
  else Raise (KeyError j).
Proof.
  induction t as [|[key value] t IH]; intros Hnd; [reflexivity|].
  cbn [map fst] in Hnd. inversion Hnd as [|? ? Hnotin Hnd']; subst.
  cbn [increment map existsb fst snd].
  destruct (pystr_eqb key j) eqn:Hkj; cbn [orb].
  - apply pystr_eqb_eq in Hkj. subst j. rewrite Nat.add_1_r. do 2 f_equal.
    clear IH Hnd Hnd'. induction t as [|[k v] t IH]; [reflexivity|].
    cbn [map fst snd] in *.
    destruct (pystr_eqb k key) eqn:Hk.
    + apply pystr_eqb_eq in Hk. subst k. exfalso. apply Hnotin. left; reflexivity.
    + rewrite Nat.add_0_r. f_equal. apply IH. intros Hin. apply Hnotin. right; exact Hin.
  - rewrite (IH Hnd').
    destruct (existsb (fun key0 => pystr_eqb key0 j) (map fst t)); cbn [bind];
      [|reflexivity].
    rewrite Nat.add_0_r. reflexivity.
Qed.

Lemma map_fst_tally {A} (f : pystr * nat -> A) (t : list (pystr * nat)) :
  map fst (map (fun kv => (fst kv, f kv)) t) = map fst t.
Proof. rewrite map_map. reflexivity. Qed.

Lemma count_inner_eq (names : list pystr) :
  forall n t,
    List.NoDup (map fst t) ->
    count_inner names (n, t) =
    match find (fun j => negb (existsb (fun key => pystr_eqb key j) (map fst t)))
               names with
    | Some j => Raise (KeyError j)
    | None =>
      Ok ((n + length names)%nat,
          map (fun kv => (fst kv, (snd kv + count_name (fst kv) names)%nat)) t)
    end.
Proof.
  induction names as [|j names IH]; intros n t Hnd.
  - cbn [count_inner find length]. rewrite Nat.add_0_r. do 2 f_equal.
    induction t as [|[k v] t IHt]; [reflexivity|].
    cbn [map fst snd] in *. inversion Hnd; subst.
    unfold count_name at 1. cbn [List.filter length]. rewrite Nat.add_0_r.
    f_equal. apply IHt. assumption.
  - cbn [count_inner find snd fst]. rewrite (increment_eq t j Hnd).
    destruct (existsb (fun key => pystr_eqb key j) (map fst t)); cbn [negb bind];
      [|reflexivity].
    rewrite IH by (rewrite map_fst_tally; exact Hnd).
    rewrite map_fst_tally.
    destruct (find _ names); [reflexivity|].
    cbn [length]. rewrite Nat.add_succ_r. cbn [Nat.add]. do 2 f_equal.
    rewrite map_map. apply map_ext. intros [k v]. cbn [fst snd].
    rewrite count_name_cons, Nat.add_assoc. reflexivity.
Qed.

Lemma count_inner_app (a b : list pystr) :
  forall acc,
    count_inner (a ++ b) acc = (acc' <- count_inner a acc ;; count_inner b acc').
Proof.
  induction a as [|j a IH]; intros acc; cbn [app count_inner bind]; [reflexivity|].
  destruct (increment (snd acc) j); cbn [bind]; [apply IH | reflexivity].
Qed.

Lemma count_outer_concat (result : list (list pystr)) :
  forall acc, count_outer result acc = count_inner (concat result) acc.
Proof.
  induction result as [|i result IH]; intros acc; cbn [count_outer concat];
    [reflexivity|].
  rewrite count_inner_app. destruct (count_inner i acc); cbn [bind];
    [apply IH | reflexivity].
Qed.

Lemma NoDup_SUMMARY_FIELDS : List.NoDup SUMMARY_FIELDS.
Proof.
  unfold SUMMARY_FIELDS.
  repeat (constructor;
          [cbn [In]; intros Hin;
           repeat (destruct Hin as [Hin | Hin]; [vm_compute in Hin; discriminate Hin|]);
           exact Hin|]).
  constructor.
Qed.

Lemma show_summary_eq (result : list (list pystr)) (filename : pystr) :
  show_summary result filename =
  match unknown_name (concat result) with
  | Some j => Raise (KeyError j)
  | None =>
    Ok (summary_output filename (length (concat result))
          (map (fun key => (key, count_name key (concat result)))
               SUMMARY_FIELDS))
  end.
Proof.
  unfold show_summary. rewrite count_outer_concat.
  rewrite count_inner_eq by exact NoDup_SUMMARY_FIELDS.
  change (map fst errors_count_init) with SUMMARY_FIELDS.
  fold (unknown_name (concat result)).
  destruct (unknown_name (concat result)); cbn [bind]; [reflexivity|].
  unfold summary_output. cbn [Nat.add].
  replace (map _ errors_count_init)
    with (map (fun key => (key, count_name key (concat result))) SUMMARY_FIELDS)
    by reflexivity.
  destruct (pystr_eqb filename []); reflexivity.
Qed.

Section Pipeline.
Context `{Interp}.

Lemma parse_entry_eq (entry : Entry) :
  parse_entry entry =
  match first_failing entry with
  | Some name => [name]
  | None => []
  end.
Proof.
  unfold parse_entry, first_failing, CHECK_ORDER.
  cbn [find option_map fst snd app].
  repeat match goal with
         | |- context [if negb ?b then _ else _] =>
           destruct b; cbn [negb find option_map fst snd app];
             [|reflexivity]
         end.
  reflexivity.
Qed.

Lemma reasons_eq (self : Validator) :
  concat (fst (parse self)) =
  concat (map parse_entry (entries self)).
Proof.
  unfold parse. rewrite parse_loop_spec. cbn [fst app].
  induction (entries self) as [|e es IH]; [reflexivity|].
  cbn [List.filter map concat]. unfold is_illegal at 1, is_legal.
  destruct (parse_entry e) as [|n l] eqn:He; cbn [length Nat.eqb negb app].
  - exact IH.
  - cbn [map concat]. rewrite He, IH. reflexivity.
Qed.

Lemma count_name_reasons (key : pystr) (es : list Entry) :
  count_name key (concat (map parse_entry es)) = failures_of key es.
Proof.
  unfold failures_of.
  induction es as [|e es IH]; [reflexivity|].
  cbn [map concat List.filter]. rewrite count_name_app, IH, parse_entry_eq.
  destruct (first_failing e) as [n|].
  - rewrite count_name_cons. unfold count_name at 1. cbn [List.filter length].
    rewrite Nat.add_0_r. unfold pystr_eqb.
    destruct (bool_decide_reflect (key = n)) as [->|Hne].
    + rewrite bool_decide_eq_true_2 by reflexivity. reflexivity.
    + rewrite bool_decide_eq_false_2 by congruence. reflexivity.
  - rewrite bool_decide_eq_false_2 by discriminate. reflexivity.
Qed.

Lemma length_reasons (es : list Entry) :
  length (concat (map parse_entry es)) = length (List.filter is_illegal es).
Proof.
  induction es as [|e es IH]; [reflexivity|].
  cbn [map concat List.filter]. rewrite length_app, IH.
  unfold is_illegal at 2, is_legal. rewrite parse_entry_eq.
  destruct (first_failing e); reflexivity.
Qed.

Lemma unknown_name_reasons (es : list Entry) :
  unknown_name (concat (map parse_entry es)) = None.
Proof.
  unfold unknown_name.
  induction es as [|e es IH]; [reflexivity|].
  cbn [map concat].
  destruct (parse_entry_reason e) as [-> | (name & Hin & ->)]; [exact IH|].
  cbn [app find].
  replace (existsb (fun key => pystr_eqb key name) SUMMARY_FIELDS) with true;
    [exact IH|].
  symmetry. apply existsb_exists. exists name. split; [exact Hin|].
  apply pystr_eqb_eq. reflexivity.
Qed.

Lemma show_summary_parse_eq (self : Validator) (filename : pystr) :
  show_summary (fst (parse self)) filename =
  Ok (summary_output filename
        (length (List.filter is_illegal (entries self)))
        (tally (entries self))).
Proof.
  rewrite show_summary_eq, reasons_eq, unknown_name_reasons, length_reasons.
  do 2 f_equal. unfold tally. apply map_ext. intros key.
  rewrite count_name_reasons. reflexivity.
Qed.

(** X12. The summary of a classified batch reports, for each field, the
    number of records whose first failing check, in the order of
    [parse_entry], is the check of that field, and as total the number
    of invalid records: a record that fails several checks is counted
    once, under the first. *)
Theorem summary_counts_first_failures (self : Validator) (filename : pystr) :
  show_summary (fst (parse self)) filename =
  Ok (summary_output filename
        (length (List.filter is_illegal (entries self)))
        (map (fun key =>
                (key,
                 length (List.filter
                           (fun e => bool_decide (first_failing e = Some key))
                           (entries self))))
             SUMMARY_FIELDS)).
Proof. apply show_summary_parse_eq. Qed.

End Pipeline.

Lemma find_all_false {A} (f : A -> bool) (l : list A) :
  (forall x, In x l -> f x = false) -> find f l = None.
Proof.
  induction l as [|x l IH]; intros Hall; [reflexivity|].
  cbn [find]. rewrite (Hall x (or_introl eq_refl)).
  apply IH. intros y Hy. apply Hall. right; exact Hy.
Qed.

(** X13. Given reasons that are all field names, [show_summary] reports
    their number and, for each of the nine fields in the order of its
    dict, how often the name of the field occurs among them. *)
Theorem show_summary_counts_occurrences (result : list (list pystr))
    (filename : pystr) :
  Forall (Forall (fun j => In j SUMMARY_FIELDS)) result ->
  show_summary result filename =
  Ok (summary_output filename (length (concat result))
        (map (fun key => (key, count_name key (concat result)))
             SUMMARY_FIELDS)).
Proof.
  intros Hall. rewrite show_summary_eq.
  replace (unknown_name (concat result)) with (@None pystr); [reflexivity|].
  symmetry. unfold unknown_name. apply find_all_false.
  intros j Hj. apply in_concat in Hj as (i & Hi & Hj).
  rewrite List.Forall_forall in Hall. specialize (Hall i Hi).
  rewrite List.Forall_forall in Hall. specialize (Hall j Hj).
  apply negb_false_iff, existsb_exists. exists j. split; [exact Hall|].
  apply pystr_eqb_eq. reflexivity.
Qed.

Lemma show_summary_counts_occurrences_witness :
  Forall (Forall (fun j => In j SUMMARY_FIELDS))
         [[u "snils"]; []; [u "address"; u "snils"]]
  /\ show_summary [[u "snils"]; []; [u "address"; u "snils"]] (u "out.txt") =
     Ok (summary_output (u "out.txt") 3
           (map (fun key =>
                   (key, count_name key [u "snils"; u "address"; u "snils"]))
                SUMMARY_FIELDS)).
Proof.
  assert (Hall : Forall (Forall (fun j => In j SUMMARY_FIELDS))
                        [[u "snils"]; []; [u "address"; u "snils"]]).
  { repeat constructor; cbn; tauto. }
  split; [exact Hall|].
  exact (show_summary_counts_occurrences _ (u "out.txt") Hall).
Defined.

(** X14. [show_summary] raises exactly when some reason is not one of
    the nine field names, with the KeyError of the first such reason;
    it then prints and writes nothing. *)
Theorem show_summary_raises_first_unknown (result : list (list pystr))
    (filename j : pystr) :
  show_summary result filename = Raise (KeyError j) <->
  unknown_name (concat result) = Some j.
Proof.
  rewrite show_summary_eq. destruct (unknown_name (concat result)) as [k|].
  - split; intros Heq; injection Heq as ->; reflexivity.
  - split; discriminate.
Qed.

(** ** The saved records *)

Lemma json_blocks_eq (data : list Entry) :
  forall written,
    json_blocks data written = written ++ concat (map json_block data).
Proof.
  induction data as [|i data IH]; intros written; cbn [json_blocks map concat].
  - rewrite app_nil_r. reflexivity.
  - rewrite IH, <- app_assoc. reflexivity.
Qed.

Lemma save_in_json_eq (data : list Entry) (filename : pystr) :
  save_in_json data filename = Written filename (json_text data).
Proof.
  unfold save_in_json, json_text. rewrite json_blocks_eq, <- app_assoc.
  reflexivity.
Qed.

Lemma json_block_end (i : Entry) :
  exists body,
    json_block i = body ++ [QUOTE] ++ u "," ++ [NEWLINE] ++ u "    },".
Proof.
  unfold json_block. unfold json_member at 9.
  eexists ([NEWLINE] ++ u "    {" ++ [NEWLINE]
           ++ json_member "telephone" true (telephone i)
           ++ json_member "height" false (height i)
           ++ json_member "snils" true (snils i)
           ++ json_member "passport_series" true (passport_series i)
           ++ json_member "university" true (university i)
           ++ json_member "work_experience" false (work_experience i)
           ++ json_member "academic_degree" true (academic_degree i)
           ++ json_member "worldview" true (worldview i)
           ++ u "      " ++ [QUOTE] ++ u "address" ++ [QUOTE] ++ u ": "
           ++ [QUOTE] ++ address i).
  repeat rewrite <- app_assoc. reflexivity.
Qed.

(** X15. The file [save_in_json] writes for a non-empty list is not a
    JSON array: the last member of the last record and the last record
    are both followed by a comma, so the text ends with a quote, a
    comma, a closing brace, a comma and the closing bracket. *)
Theorem save_in_json_trailing_commas (data : list Entry) (filename : pystr) :
  data <> [] ->
  exists body,
    save_in_json data filename =
    Written filename
      (body ++ [QUOTE] ++ u "," ++ [NEWLINE] ++ u "    }," ++ [NEWLINE]
       ++ u "]").
Proof.
  intros Hne. rewrite save_in_json_eq. unfold json_text.
  destruct (exists_last Hne) as (data' & i & ->).
  destruct (json_block_end i) as (body & Hb).
  exists (u "[" ++ concat (map json_block data') ++ body).
  rewrite map_app, concat_app. cbn [map concat]. rewrite app_nil_r, Hb.
  repeat rewrite <- app_assoc. reflexivity.
Qed.

Lemma save_in_json_trailing_commas_witness :
  [sample_entry] <> []
  /\ exists body,
       save_in_json [sample_entry] (u "valid_data.txt") =
       Written (u "valid_data.txt")
         (body ++ [QUOTE] ++ u "," ++ [NEWLINE] ++ u "    }," ++ [NEWLINE]
          ++ u "]").
Proof.
  assert (Hne : [sample_entry] <> []) by discriminate.
  split; [exact Hne|].
  exact (save_in_json_trailing_commas [sample_entry] (u "valid_data.txt") Hne).
Defined.

(** X16. [save_in_json] writes the blocks of the records in the order of
    the list; the text for two lists one after the other is the text for
    the first without its closing line, then the text for the second
    without its opening bracket. *)
Theorem save_in_json_app (a b : list Entry) (filename : pystr) :
  save_in_json (a ++ b) filename =
  Written filename
    (u "[" ++ concat (map json_block a) ++ concat (map json_block b)
     ++ [NEWLINE] ++ u "]").
Proof.
  rewrite save_in_json_eq. unfold json_text.
  rewrite map_app, concat_app, <- app_assoc. reflexivity.
Qed.

(** ** The script *)

Section Script.
Context `{Interp}.

Lemma script_eq (data : list pydict) (output_file : pystr) (w : world) :
  script data output_file w =
  match first_error data with
  | Some key => Raise (KeyError key)
  | None =>
    let es := map Entry_of_dict data in
    Ok (perform (Written (u "valid_data.txt")
                   (json_text (List.filter is_legal es)))
          (perform (summary_output output_file
                      (length (List.filter is_illegal es)) (tally es))
             w))
  end.
Proof.
  unfold script, Validator_init. rewrite Validator_init_loop_eq.
  destruct (first_error data); cbn [bind app]; [reflexivity|].
  rewrite show_summary_parse_eq. cbn [bind entries].
  rewrite save_in_json_eq. unfold parse. rewrite parse_loop_spec.
  cbn [snd entries app]. reflexivity.
Qed.

(** X17. The script raises KeyError exactly when some dict of the data
    lacks one of the nine keys, and then for the first missing key of
    the first such dict: the exception leaves [Validator.__init__]
    before anything is printed or written, and neither the summary nor
    the saving of the records raises a KeyError of its own. *)
Theorem script_fails_on_first_missing_key (data : list pydict)
    (output_file : pystr) (w : world) (key : pystr) :
  script data output_file w = Raise (KeyError key) <->
  first_error data = Some key.
Proof.
  rewrite script_eq. destruct (first_error data) as [k|]; cbn zeta.
  - split; intros Heq; injection Heq as ->; reflexivity.
  - split; discriminate.
Qed.

(** X18. When every dict has the nine keys, the script leaves in
    [valid_data.txt] the blocks of the records that pass all checks, in
    input order; the summary is in the output file only when its name
    is not empty and not [valid_data.txt]: with an empty name it goes to
    standard output, and under the name [valid_data.txt] it is
    overwritten by the records.  No other file changes. *)
Theorem script_effect (data : list pydict) (output_file : pystr) (w : world) :
  first_error data = None ->
  let es := map Entry_of_dict data in
  exists w',
    script data output_file w = Ok w'
    /\ files w' !! u "valid_data.txt"
       = Some (json_text (List.filter passes_all_checks es))
    /\ (forall f,
           f <> u "valid_data.txt" ->
           files w' !! f =
           if bool_decide (f = output_file /\ output_file <> [])
           then Some (summary_file (length (List.filter is_illegal es))
                        (tally es))
           else files w !! f)
    /\ stdout w' =
       if bool_decide (output_file = [])
       then stdout w ++ summary_stdout (length (List.filter is_illegal es))
                          (tally es)
       else stdout w.
Proof.
  intros Hnone es. rewrite script_eq, Hnone. cbn zeta. fold es.
  match goal with
  | |- exists w', Ok ?x = Ok w' /\ _ => exists x
  end.
  split; [reflexivity|].
  assert (Hlegal : List.filter is_legal es = List.filter passes_all_checks es).
  { apply filter_ext. intros e. apply is_legal_passes. }
  unfold summary_output.
  destruct (pystr_eqb output_file []) eqn:Hout; cbn [perform files stdout].
  - apply pystr_eqb_eq in Hout. subst output_file. split; [|split].
    + rewrite lookup_insert_eq, Hlegal. reflexivity.
    + intros f Hf. rewrite lookup_insert_ne by congruence.
      rewrite bool_decide_eq_false_2; [reflexivity|].
      intros Hc. destruct Hc as [_ Hc]. exact (Hc eq_refl).
    + rewrite bool_decide_eq_true_2 by reflexivity. reflexivity.
  - assert (Hne : output_file <> []).
    { intros ->. rewrite (proj2 (pystr_eqb_eq [] []) eq_refl) in Hout.
      discriminate Hout. }
    split; [|split].
    + rewrite lookup_insert_eq, Hlegal. reflexivity.
    + intros f Hf. rewrite lookup_insert_ne by congruence.
      case_bool_decide as Hc.
      * destruct Hc as [-> _]. rewrite lookup_insert_eq. reflexivity.
      * rewrite lookup_insert_ne; [reflexivity|].
        intros ->. apply Hc. split; [reflexivity | exact Hne].
    + rewrite bool_decide_eq_false_2 by exact Hne. reflexivity.
Qed.

End Script.

Lemma script_effect_witness :
  first_error [sample_dict] = None
  /\ exists w',
       @script cpython_3_11 [sample_dict] (u "valid_data.txt")
         {| stdout := []; files := ∅ |} = Ok w'
       /\ files w' !! u "valid_data.txt"
          = Some (json_text
                    (List.filter (@passes_all_checks cpython_3_11)
                       [Entry_of_dict sample_dict])).
Proof.
  assert (Hnone : first_error [sample_dict] = None) by (vm_compute; reflexivity).
  split; [exact Hnone|].
  destruct (@script_effect cpython_3_11 [sample_dict] (u "valid_data.txt")
              {| stdout := []; files := ∅ |} Hnone)
    as (w' & Hrun & Hfile & _).
  exists w'. split; [exact Hrun | exact Hfile].
Defined.

(** ** The digit limit of [int] *)

Lemma length_lstrip (s : pystr) : (length (lstrip s) <= length s)%nat.
Proof.
  induction s as [|c s IH]; cbn [lstrip length]; [lia|].
  destruct (Py_ISSPACE c); cbn [length]; lia.
Qed.

Lemma length_transform_chars (s : pystr) :
  (length (transform_chars s) <= length s)%nat.
Proof.
  induction s as [|ch s IH]; cbn [transform_chars length]; [lia|].
  destruct (ch <? 127); cbn [length]; [lia|].
  destruct (Py_UNICODE_ISSPACE ch); cbn [length]; [lia|].
  destruct (Py_UNICODE_TODECIMAL ch); cbn [length]; lia.
Qed.

Lemma length_Transform (s : pystr) :
  (length (TransformDecimalAndSpaceToASCII s) <= length s)%nat.
Proof.
  unfold TransformDecimalAndSpaceToASCII.
  destruct (forallb _ s); [lia | apply length_transform_chars].
Qed.

Lemma length_split_sign (s : pystr) :
  (length (snd (split_sign s)) <= length s)%nat.
Proof.
  destruct s as [|c s]; cbn [split_sign snd length]; [lia|].
  destruct (c =? ord "+"); cbn [snd length]; [lia|].
  destruct (c =? ord "-"); cbn [snd length]; lia.
Qed.

Lemma scan_digits_count (str : pystr) :
  forall prev value digits value' digits' rest,
    scan_digits str prev value digits = Some (value', digits', rest) ->
    (digits' <= digits + length str)%nat.
Proof.
  induction str as [|c str IH]; intros prev value digits value' digits' rest;
    cbn [scan_digits length].
  - destruct (prev =? UNDERSCORE); [discriminate|]. intros [= <- <- <-]. lia.
  - destruct (c =? UNDERSCORE).
    + destruct (prev =? UNDERSCORE); [discriminate|].
      intros Hs. apply IH in Hs. lia.
    + destruct (Py_ISDIGIT c).
      * intros Hs. apply IH in Hs. lia.
      * destruct (prev =? UNDERSCORE); [discriminate|].
        intros [= <- <- <-]. lia.
Qed.

Lemma too_many_digits_small (I : Interp) (digits : nat) :
  (digits <= 640)%nat -> @too_many_digits I digits = false.
Proof.
  intros Hle. unfold too_many_digits, PY_LONG_MAX_STR_DIGITS_THRESHOLD.
  replace (640 <? digits)%nat with false; [reflexivity|].
  symmetry. apply Nat.ltb_ge. exact Hle.
Qed.

Lemma py_int_short (I I' : Interp) (s : pystr) :
  (length s <= 640)%nat -> @py_int I s = @py_int I' s.
Proof.
  intros Hlen. unfold py_int.
  pose proof (length_Transform s) as Ht.
  pose proof (length_lstrip (TransformDecimalAndSpaceToASCII s)) as Hl.
  pose proof (length_split_sign (lstrip (TransformDecimalAndSpaceToASCII s)))
    as Hs.
  destruct (split_sign (lstrip (TransformDecimalAndSpaceToASCII s)))
    as [negative str].
  cbn [snd] in Hs. destruct str as [|c str]; [reflexivity|].
  destruct (c =? UNDERSCORE); [reflexivity|].
  destruct (scan_digits (c :: str) 0 0 0) as [[[value digits] rest]|] eqn:Hscan;
    [|reflexivity].
  apply scan_digits_count in Hscan.
  rewrite !too_many_digits_small by lia. reflexivity.
Qed.

Lemma py_int_unlimited (I : Interp) (s : pystr) (n : Z) :
  @py_int I s = Some n -> @py_int {| int_max_str_digits := 0 |} s = Some n.
Proof.
  unfold py_int.
  destruct (split_sign (lstrip (TransformDecimalAndSpaceToASCII s)))
    as [negative str].
  destruct str as [|c str]; [discriminate|].
  destruct (c =? UNDERSCORE); [discriminate|].
  destruct (scan_digits (c :: str) 0 0 0) as [[[value digits] rest]|];
    [|discriminate].
  destruct (Nat.eqb digits 0); [discriminate|].
  destruct (@too_many_digits I digits); [discriminate|].
  unfold too_many_digits. cbn [int_max_str_digits Nat.ltb Nat.leb andb].
  rewrite andb_false_r. cbn [andb]. exact (fun Heq => Heq).
Qed.

(** X19. For a text of at most 640 characters the verdict of
    [check_work_experience] does not depend on the interpreter's limit
    on the digits of an integer text. *)
Theorem check_work_experience_short_text (I I' : Interp) (s : pystr) :
  (length s <= 640)%nat ->
  @check_work_experience I s = @check_work_experience I' s.
Proof.
  intros Hlen. unfold check_work_experience.
  rewrite (py_int_short I I' s Hlen). reflexivity.
Qed.

Lemma check_work_experience_short_text_witness :
  (length (u " +1_5 ") <= 640)%nat
  /\ @check_work_experience cpython_3_11 (u " +1_5 ")
     = @check_work_experience {| int_max_str_digits := 0 |} (u " +1_5 ").
Proof.
  assert (Hlen : (length (u " +1_5 ") <= 640)%nat) by (vm_compute; lia).
  split; [exact Hlen|].
  exact (check_work_experience_short_text cpython_3_11
           {| int_max_str_digits := 0 |} (u " +1_5 ") Hlen).
Defined.

(** X20. A text that [check_work_experience] accepts under some digit
    limit is accepted with the limit switched off: the limit only turns
    acceptances into rejections. *)
Theorem check_work_experience_without_limit (I : Interp) (s : pystr) :
  @check_work_experience I s = true ->
  @check_work_experience {| int_max_str_digits := 0 |} s = true.
Proof.
  unfold check_work_experience.
  destruct (@py_int I s) as [n|] eqn:Hint; [|discriminate].
  rewrite (py_int_unlimited I s n Hint). exact (fun Heq => Heq).
Qed.

Lemma check_work_experience_without_limit_witness :
  @check_work_experience cpython_3_11 (u "19") = true
  /\ @check_work_experience {| int_max_str_digits := 0 |} (u "19") = true.
Proof.
  assert (Hacc : @check_work_experience cpython_3_11 (u "19") = true)
    by (vm_compute; reflexivity).
  split; [exact Hacc|].
  exact (check_work_experience_without_limit cpython_3_11 (u "19") Hacc).
Defined.
